(** * Link harvesting and rewriting scripts: a shallow embedding

    The Python scripts of the repository scan HTML text with regular
    expressions, fetch the referenced media and rewrite the documents.
    This development embeds the functions the specification talks about
    and settles the specification's claims on them.

    Conventions of the embedding.
    - A Python [str] is a list of characters.  Characters are code points
      below 256 (the [ascii] type); letter case and white space follow
      Python's rules on that range.
    - The [re] module is embedded as a backtracking matcher over the
      fragment of the pattern language the scripts use.  Repetition is only
      ever applied to a single character or a character set in the sources,
      and the abstract syntax keeps that restriction, which makes the
      matcher structurally recursive: no fuel, and every function of the
      embedding is total.
    - A [dict] is an association list in insertion order.  [list(set(l))]
      is any repetition-free enumeration of [l] (class [SetOrder]).
    - The file system maps a path to the content of the file there.  A
      read of a path without content stands for a read that raises.
      Writing a file and creating a directory are taken to succeed.
    - External collaborators (HTTP client, urlretrieve, gdown, yt-dlp) are
      fields of a [Host]: functions from the request, the history of
      requests and the file system to an outcome.  The requests made are
      logged in the state, so that a call that is not made can be told from
      one that is.
    - A file is named by one path; the sources' [rel_path] is that path
      relative to the root and is identified with it.  Printing and
      [time.sleep] are left out. *)

From Stdlib Require Import List String Ascii Bool Arith NArith Lia.
From Stdlib Require Import DecimalString Decimal DecimalNat.
Import ListNotations.

Set Implicit Arguments.
Local Open Scope list_scope.

(** ** Python strings *)

Module Py.

Definition str := list ascii.

Definition lit (s : string) : str := list_ascii_of_string s.

Definition dq : ascii := ascii_of_nat 34.   (* the double quote *)
Definition sq : ascii := ascii_of_nat 39.   (* the single quote *)
Definition bsl : ascii := ascii_of_nat 92.  (* the backslash *)
Definition nl : ascii := ascii_of_nat 10.   (* the newline *)

Definition code (c : ascii) : N := N_of_ascii c.

Definition between (lo hi n : N) : bool := (N.leb lo n && N.leb n hi)%bool.

(** [str.isspace] on one character, code points below 256. *)
Definition is_space (c : ascii) : bool :=
  let n := code c in
  (between 9 13 n || between 28 32 n || N.eqb n 133 || N.eqb n 160)%bool.

(** Simple lower- and upper-case mappings, code points below 256. *)
Definition lower (c : ascii) : ascii :=
  let n := code c in
  if (between 65 90 n || (between 192 222 n && negb (N.eqb n 215)))%bool
  then ascii_of_N (n + 32) else c.

Definition upper (c : ascii) : ascii :=
  let n := code c in
  if (between 97 122 n || (between 224 254 n && negb (N.eqb n 247)))%bool
  then ascii_of_N (n - 32) else c.

Definition ascii_eqb (a b : ascii) : bool := Ascii.eqb a b.

Fixpoint str_eqb (a b : str) : bool :=
  match a, b with
  | [], [] => true
  | x :: a', y :: b' => (ascii_eqb x y && str_eqb a' b')%bool
  | _, _ => false
  end.

Definition str_dec (a b : str) : {a = b} + {a <> b} :=
  list_eq_dec ascii_dec a b.

(** [s.startswith(p)] *)
Fixpoint startswith (p s : str) : bool :=
  match p, s with
  | [], _ => true
  | x :: p', y :: s' => (ascii_eqb x y && startswith p' s')%bool
  | _ :: _, [] => false
  end.

(** [p in s] for strings *)
Fixpoint contains (p s : str) : bool :=
  (startswith p s ||
   match s with
   | [] => false
   | _ :: s' => contains p s'
   end)%bool.

(** [s.find(p, start)]: the least index [i >= start] at which [p] occurs;
    [None] stands for Python's -1.  [find_at p s i] scans the suffix [s]
    that begins at index [i]. *)
Fixpoint find_at (p s : str) (i : nat) : option nat :=
  if startswith p s then Some i
  else match s with
       | [] => None
       | _ :: s' => find_at p s' (S i)
       end.

Definition find (p s : str) (start : nat) : option nat :=
  if Nat.leb start (List.length s) then find_at p (skipn start s) start else None.

(** [s.rfind(p)]: the greatest index at which [p] occurs. *)
Fixpoint rfind_at (p s : str) (i : nat) : option nat :=
  match s with
  | [] => if startswith p [] then Some i else None
  | _ :: s' =>
      match rfind_at p s' (S i) with
      | Some j => Some j
      | None => if startswith p s then Some i else None
      end
  end.

Definition rfind (p s : str) : option nat := rfind_at p s 0.

(** [s.replace(old, new)] and [s.replace(old, new, 1)].  The scan copies
    characters until [old] occurs, emits [new] and skips the occurrence;
    [skip] counts the characters of an occurrence still to be dropped. *)
Fixpoint replace_from (old new : str) (s : str) (skip : nat) : str :=
  match skip with
  | S n => match s with
           | [] => []
           | _ :: s' => replace_from old new s' n
           end
  | O =>
      if startswith old s then
        match old with
        | [] => new ++ match s with
                       | [] => []
                       | c :: s' => c :: replace_from old new s' 0
                       end
        | _ :: old' => new ++ match s with
                              | [] => []
                              | _ :: s' => replace_from old new s' (List.length old')
                              end
        end
      else match s with
           | [] => []
           | c :: s' => c :: replace_from old new s' 0
           end
  end.

Definition replace (old new s : str) : str := replace_from old new s 0.

Fixpoint replace_first (old new s : str) : str :=
  if startswith old s then new ++ skipn (List.length old) s
  else match s with
       | [] => []
       | c :: s' => c :: replace_first old new s'
       end.

(** [str(n)] for a natural number. *)
Definition str_of_nat (n : nat) : str :=
  lit (NilEmpty.string_of_uint (Nat.to_uint n)).

(** [c in s] for a character. *)
Definition mem_char (c : ascii) (s : str) : bool := existsb (ascii_eqb c) s.

(** No character of [a] occurs in [b]. *)
Definition disjoint (a b : str) : bool :=
  forallb (fun c => negb (mem_char c b)) a.

(** [not s.strip()]: every character is white space. *)
Definition blank (s : str) : bool := forallb is_space s.

(** The decimal digits, of which [str(n)] is made. *)
Definition is_digit (c : ascii) : bool := between 48 57 (code c).

End Py.

(** ** The fragment of Python's [re] the scripts use *)

Module Re.
Import Py.

(** One member of a character set: a character, a range, or [\s]. *)
Inductive item : Type :=
| IChr (c : ascii)
| IRng (lo hi : ascii)
| ISpace.

(** A pattern element that consumes exactly one character. *)
Inductive atom : Type :=
| AChr (c : ascii)                       (* a literal character *)
| ASet (neg : bool) (items : list item). (* [...] and [^...] *)

Inductive re : Type :=
| Eps
| Atom (a : atom)
| Star (a : atom)             (* a*  greedy *)
| Plus (a : atom)             (* a+  greedy *)
| Opt (r : re)                (* r?  greedy *)
| Cat (r1 r2 : re)
| Alt (r1 r2 : re)            (* r1|r2, left alternative first *)
| Grp (r : re).               (* the capturing group of the pattern *)

(** A literal string as a pattern (also what [re.escape] produces). *)
Fixpoint Str (s : str) : re :=
  match s with
  | [] => Eps
  | [c] => Atom (AChr c)
  | c :: s' => Cat (Atom (AChr c)) (Str s')
  end.

Definition in_range (lo hi c : ascii) : bool :=
  between (code lo) (code hi) (code c).

(** Set membership; [ic] is the IGNORECASE flag.  Under IGNORECASE a
    character belongs to a range when one of its case variants does. *)
Definition item_match (ic : bool) (it : item) (c : ascii) : bool :=
  match it with
  | IChr x => if ic then ascii_eqb (lower x) (lower c) else ascii_eqb x c
  | IRng lo hi =>
      if ic then (in_range lo hi (lower c) || in_range lo hi (upper c))%bool
      else in_range lo hi c
  | ISpace => is_space c
  end.

Definition atom_match (ic : bool) (a : atom) (c : ascii) : bool :=
  match a with
  | AChr x => if ic then ascii_eqb (lower x) (lower c) else ascii_eqb x c
  | ASet neg items => xorb neg (existsb (fun it => item_match ic it c) items)
  end.

Section Matcher.
Variable R : Type.

(** Greedy repetition of a one-character test, longest first, giving back
    characters one at a time while the continuation fails. *)
Fixpoint star_k (p : ascii -> bool) (s : str) (k : str -> option R)
  : option R :=
  match s with
  | [] => k []
  | c :: s' =>
      if p c then
        match star_k p s' k with
        | Some x => Some x
        | None => k s
        end
      else k s
  end.

(** The backtracking matcher in continuation-passing style: [k] receives
    the rest of the input and the text of the group captured so far. *)
Fixpoint run (ic : bool) (r : re) (s : str) (g : option str)
  (k : str -> option str -> option R) : option R :=
  match r with
  | Eps => k s g
  | Atom a =>
      match s with
      | c :: s' => if atom_match ic a c then k s' g else None
      | [] => None
      end
  | Star a => star_k (atom_match ic a) s (fun s' => k s' g)
  | Plus a =>
      match s with
      | c :: s' =>
          if atom_match ic a c
          then star_k (atom_match ic a) s' (fun s'' => k s'' g)
          else None
      | [] => None
      end
  | Opt r' =>
      match run ic r' s g k with
      | Some x => Some x
      | None => k s g
      end
  | Cat r1 r2 => run ic r1 s g (fun s' g' => run ic r2 s' g' k)
  | Alt r1 r2 =>
      match run ic r1 s g k with
      | Some x => Some x
      | None => run ic r2 s g k
      end
  | Grp r' =>
      run ic r' s g
        (fun s' _ => k s' (Some (firstn (List.length s - List.length s') s)))
  end.

End Matcher.

(** A match anchored at the start of [s]: its length and its group. *)
Definition match_at (ic : bool) (r : re) (s : str)
  : option (nat * option str) :=
  run ic r s None
    (fun s' g => Some (List.length s - List.length s', g)).

Fixpoint has_group (r : re) : bool :=
  match r with
  | Grp _ => true
  | Opt r' => has_group r'
  | Cat r1 r2 | Alt r1 r2 => (has_group r1 || has_group r2)%bool
  | _ => false
  end.

(** What [findall] reports for one match: the group when the pattern has
    one (empty when it did not take part), else the whole match. *)
Definition reported (r : re) (s : str) (len : nat) (g : option str) : str :=
  if has_group r then match g with Some t => t | None => [] end
  else firstn len s.

(** Left-to-right scan for non-overlapping matches.  [skip] counts the
    characters of the previous match still to be passed over. *)
Fixpoint scan (ic : bool) (r : re) (s : str) (skip : nat)
  : list (str * str) :=
  match skip with
  | S n => match s with
           | [] => []
           | _ :: s' => scan ic r s' n
           end
  | O =>
      match match_at ic r s with
      | Some (len, g) =>
          (firstn len s, reported r s len g) ::
          match s with
          | [] => []
          | _ :: s' => scan ic r s' (len - 1)
          end
      | None =>
          match s with
          | [] => []
          | _ :: s' => scan ic r s' 0
          end
      end
  end.

(** [re.findall(r, s)] and the whole matches of [re.finditer(r, s)]. *)
Definition findall (ic : bool) (r : re) (s : str) : list str :=
  map snd (scan ic r s 0).

Definition finditer (ic : bool) (r : re) (s : str) : list (str * str) :=
  scan ic r s 0.

(** [re.sub(r, f, s, count)] with a replacement function [f] of the whole
    match; [count = None] replaces every match. *)
Fixpoint sub_from (ic : bool) (r : re) (f : str -> str) (s : str)
  (skip : nat) (count : option nat) : str :=
  match skip with
  | S n => match s with
           | [] => []
           | _ :: s' => sub_from ic r f s' n count
           end
  | O =>
      match count with
      | Some O => s
      | _ =>
          match match_at ic r s with
          | Some (len, _) =>
              let count' := option_map Nat.pred count in
              f (firstn len s) ++
              match s with
              | [] => []
              | c :: s' =>
                  match len with
                  | O => c :: sub_from ic r f s' 0 count'
                  | S n => sub_from ic r f s' n count'
                  end
              end
          | None =>
              match s with
              | [] => []
              | c :: s' => c :: sub_from ic r f s' 0 count
              end
          end
      end
  end.

Definition sub (ic : bool) (r : re) (f : str -> str) (s : str) : str :=
  sub_from ic r f s 0 None.

Definition sub_count (ic : bool) (r : re) (f : str -> str) (s : str)
  (count : nat) : str :=
  sub_from ic r f s 0 (Some count).

(** [re.search(r, s)]: the leftmost match, as (whole match, group). *)
Definition search (ic : bool) (r : re) (s : str) : option (str * str) :=
  match scan ic r s 0 with
  | [] => None
  | m :: _ => Some m
  end.

(** [tail_group a r]: the pattern [r] ends with the group [(a+)]. *)
Inductive tail_group (a : atom) : re -> Prop :=
| tail_here : tail_group a (Grp (Plus a))
| tail_cat (r1 r2 : re) : tail_group a r2 -> tail_group a (Cat r1 r2).

(** *** A static bound on what a match must contain

    [needs ic P r] is a number of characters satisfying [P] that every match
    of [r] holds: an atom counts when every character it accepts satisfies
    [P], which is decided by trying them all. *)

Definition all_chars : list ascii := map ascii_of_nat (List.seq 0 256).

Definition count (P : ascii -> bool) (s : str) : nat :=
  List.length (filter P s).

Definition atom_within (ic : bool) (P : ascii -> bool) (a : atom) : bool :=
  forallb (fun c => implb (atom_match ic a c) (P c)) all_chars.

Definition atom_needs (ic : bool) (P : ascii -> bool) (a : atom) : nat :=
  if atom_within ic P a then 1 else 0.

Fixpoint needs (ic : bool) (P : ascii -> bool) (r : re) : nat :=
  match r with
  | Eps | Star _ | Opt _ => 0
  | Atom a | Plus a => atom_needs ic P a
  | Cat r1 r2 => needs ic P r1 + needs ic P r2
  | Alt r1 r2 => Nat.min (needs ic P r1) (needs ic P r2)
  | Grp r' => needs ic P r'
  end.

End Re.

(** ** Dictionaries, sets and the outside world *)

Module Env.
Import Py.

(** A [dict] in insertion order.  Assigning to a key that is present
    keeps its position. *)
Definition dict (V : Type) := list (str * V).

Fixpoint dict_get {V} (d : dict V) (k : str) : option V :=
  match d with
  | [] => None
  | (k', v) :: d' => if str_eqb k' k then Some v else dict_get d' k
  end.

Definition dict_mem {V} (d : dict V) (k : str) : bool :=
  match dict_get d k with Some _ => true | None => false end.

Fixpoint dict_set {V} (d : dict V) (k : str) (v : V) : dict V :=
  match d with
  | [] => [(k, v)]
  | (k', v') :: d' =>
      if str_eqb k' k then (k', v) :: d' else (k', v') :: dict_set d' k v
  end.

Definition keys {V} (d : dict V) : list str := map fst d.

(** [x in l] for a list of strings *)
Definition mem (x : str) (l : list str) : bool := existsb (str_eqb x) l.

(** The elements of [l] in the order in which they are first seen, after
    those of [acc]. *)
Fixpoint add_new (acc l : list str) : list str :=
  match l with
  | [] => acc
  | x :: rest => add_new (if mem x acc then acc else acc ++ [x]) rest
  end.

Definition first_seen (l : list str) : list str := add_new [] l.

(** [list(set(l))]: the elements of [l] without repetition, in an order
    the program does not control. *)
Class SetOrder : Type := {
  set_list : list str -> list str;
  set_list_NoDup : forall l, NoDup (set_list l);
  set_list_In : forall l x, In x (set_list l) <-> In x l
}.

(** The file system: the content of each regular file. *)
Definition fs := str -> option str.

Definition fs_empty : fs := fun _ => None.

Definition exists_ (f : fs) (p : str) : bool :=
  match f p with Some _ => true | None => false end.

Definition getsize (f : fs) (p : str) : nat :=
  match f p with Some c => List.length c | None => 0 end.

Definition write (f : fs) (p : str) (c : str) : fs :=
  fun q => if str_eqb q p then Some c else f q.

Definition remove (f : fs) (p : str) : fs :=
  fun q => if str_eqb q p then None else f q.

(** What [requests.get] hands back: a response with its status code and
    body, or an exception (time-out, connection error, ...). *)
Inductive response : Type :=
| Response (status : nat) (content : str)
| TransportError.

(** [response.raise_for_status()] raises on the 4xx and 5xx codes. *)
Definition raises_for_status (status : nat) : bool :=
  (Nat.leb 400 status && Nat.ltb status 600)%bool.

(** What an external downloader (urlretrieve, gdown, yt-dlp) leaves behind:
    the file system after the call, and whether it returned or raised. *)
Inductive outcome : Type :=
| Returned (f : fs)
| Raised (f : fs).

Definition outcome_files (o : outcome) : fs :=
  match o with
  | Returned f => f
  | Raised f => f
  end.

(** [subseq l1 l2]: [l1] is [l2] with some elements left out. *)
Inductive subseq {A : Type} : list A -> list A -> Prop :=
| subseq_nil : subseq [] []
| subseq_skip (x : A) (l1 l2 : list A) : subseq l1 l2 -> subseq l1 (x :: l2)
| subseq_take (x : A) (l1 l2 : list A) :
    subseq l1 l2 -> subseq (x :: l1) (x :: l2).

(** The host the scripts run on.  [http_get] and the downloaders see the
    requests made before, so their answers may vary from call to call. *)
Record Host : Type := {
  http_get : list str -> str -> response;
  downloader : list (str * str) -> str -> str -> fs -> outcome;
  urlparse_path : str -> str;
  dirname : str -> str;
  path_join : str -> str -> str;
  parents3_ok : str -> bool   (* does [filepath.parents[3]] exist *)
}.

(** The state a run threads through: the files, the HTTP requests made
    and the downloader calls made (url, destination), oldest first. *)
Record world : Type := {
  files : fs;
  requests : list str;
  downloads : list (str * str)
}.

End Env.

(** ** download_images.py *)

Module Images.
Import Py Re Env.

Definition quote : atom := ASet false [IChr dq; IChr sq].
Definition not_quote : atom := ASet true [IChr dq; IChr sq].

Fixpoint seq (rs : list re) : re :=
  match rs with
  | [] => Eps
  | [r] => r
  | r :: rs' => Cat r (seq rs')
  end.

Fixpoint alts (rs : list re) : re :=
  match rs with
  | [] => Eps
  | [r] => r
  | r :: rs' => Alt r (alts rs')
  end.

(** Patterns are quoted with \x22 standing for the double quote.
    [<img[^>]+src=[\x22']([^\x22']+)[\x22']] *)
Definition pat_img : re :=
  seq [Str (lit "<img"); Plus (ASet true [IChr ">"%char]); Str (lit "src=");
       Atom quote; Grp (Plus not_quote); Atom quote].

(** [<source[^>]+srcset=[\x22']([^\x22']+)[\x22']] *)
Definition pat_source : re :=
  seq [Str (lit "<source"); Plus (ASet true [IChr ">"%char]);
       Str (lit "srcset="); Atom quote; Grp (Plus not_quote); Atom quote].

(** [background-image:\s*url\([\x22']?([^\x22')\s]+)[\x22']?\)] *)
Definition pat_background : re :=
  seq [Str (lit "background-image:"); Star (ASet false [ISpace]);
       Str (lit "url("); Opt (Atom quote);
       Grp (Plus (ASet true [IChr dq; IChr sq; IChr ")"%char; ISpace]));
       Opt (Atom quote); Str (lit ")")].

(** [<link[^>]+href=[\x22']([^\x22']+\.(?:png|jpg|jpeg|gif|svg|webp|ico))[\x22']] *)
Definition pat_link : re :=
  seq [Str (lit "<link"); Plus (ASet true [IChr ">"%char]); Str (lit "href=");
       Atom quote;
       Grp (seq [Plus not_quote; Str (lit ".");
                 alts (map (fun e => Str (lit e))
                         ["png"; "jpg"; "jpeg"; "gif"; "svg"; "webp"; "ico"]
                         %string)]);
       Atom quote].

Definition patterns : list re := [pat_img; pat_source; pat_background; pat_link].

(** The candidates of all patterns, pattern by pattern. *)
Definition image_data (html_content : str) : list str :=
  flat_map (fun pattern => findall true pattern html_content) patterns.

(** The filter loop over the candidates. *)
Fixpoint external_images (image_data : list str) : list str :=
  match image_data with
  | [] => []
  | url :: rest =>
      if (startswith (lit "data:") url || startswith (lit "#") url
          || blank url)%bool
      then external_images rest
      else if (startswith (lit "http://") url
               || startswith (lit "https://") url)%bool
      then
        if (negb (contains (lit "sites.google.com") url)
            || startswith (lit "http") url)%bool
        then url :: external_images rest
        else external_images rest
      else if startswith (lit "//") url
      then (lit "https:" ++ url) :: external_images rest
      else external_images rest
  end.

Definition extract_image_links {O : SetOrder} (html_content : str) : list str :=
  set_list (external_images (image_data html_content)).

(** [download_image(url, output_path)]: every exception is caught. *)
Definition download_image (h : Host) (url output_path : str) (w : world)
  : bool * world :=
  let asked := {| files := files w; requests := requests w ++ [url];
                  downloads := downloads w |} in
  match http_get h (requests w) url with
  | TransportError => (false, asked)
  | Response status content =>
      if raises_for_status status then (false, asked)
      else (true, {| files := write (files w) output_path content;
                     requests := requests w ++ [url];
                     downloads := downloads w |})
  end.

Definition extensions : list str :=
  map lit [".jpg"; ".jpeg"; ".png"; ".gif"; ".svg"; ".webp"; ".ico"]%string.

Definition get_image_extension (h : Host) (url : str) : str :=
  let path := map lower (urlparse_path h url) in
  match List.find (fun ext => contains ext path) extensions with
  | Some ext => ext
  | None =>
      if (contains (lit "googleusercontent.com") url
          || contains (lit "drive.google.com") url)%bool
      then lit ".jpg" else lit ".png"
  end.

(** The four rewrite contexts of one URL; [re.escape(url)] is [Str url]. *)
Definition rewrite_patterns (url : str) : list re :=
  [ seq [Str (lit "src="); Atom quote; Grp (Str url); Atom quote];
    seq [Str (lit "srcset="); Atom quote; Grp (Str url); Atom quote];
    seq [Str (lit "url("); Opt (Atom quote); Grp (Str url); Opt (Atom quote);
         Str (lit ")")];
    seq [Str (lit "href="); Atom quote; Grp (Str url); Atom quote] ].

(** The inner loop over the patterns of one mapping entry. *)
Fixpoint replace_patterns (url local_path : str) (pats : list re)
  (modified : str) (replacements : nat) : str * nat :=
  match pats with
  | [] => (modified, replacements)
  | pattern :: rest =>
      let count := List.length (findall true pattern modified) in
      if Nat.ltb 0 count
      then replace_patterns url local_path rest
             (sub true pattern (fun m0 => replace url local_path m0) modified)
             (replacements + count)
      else replace_patterns url local_path rest modified replacements
  end.

(** The outer loop over the mapping. *)
Fixpoint replace_entries (image_mapping : dict str) (modified : str)
  (replacements : nat) : str * nat :=
  match image_mapping with
  | [] => (modified, replacements)
  | (url, local_filename) :: rest =>
      let local_path := lit "images/" ++ local_filename in
      let '(modified', replacements') :=
        replace_patterns url local_path (rewrite_patterns url)
          modified replacements in
      replace_entries rest modified' replacements'
  end.

Definition replace_image_links (html_content : str) (image_mapping : dict str)
  : str * nat :=
  replace_entries image_mapping html_content 0.

(** *** main, step 1: scanning.  A file whose read raises is skipped. *)

Fixpoint record_images (images : list str) (rel_path : str)
  (all_images : dict (list str)) : dict (list str) :=
  match images with
  | [] => all_images
  | img_url :: rest =>
      let all_images1 :=
        if dict_mem all_images img_url then all_images
        else dict_set all_images img_url [] in
      let old := match dict_get all_images1 img_url with
                 | Some l => l
                 | None => []
                 end in
      record_images rest rel_path (dict_set all_images1 img_url (old ++ [rel_path]))
  end.

Fixpoint scan_files {O : SetOrder} (f : fs) (paths : list str)
  (all_images file_images : dict (list str))
  : dict (list str) * dict (list str) :=
  match paths with
  | [] => (all_images, file_images)
  | file_path :: rest =>
      match f file_path with
      | None => scan_files f rest all_images file_images
      | Some content =>
          match extract_image_links content with
          | [] => scan_files f rest all_images file_images
          | images =>
              scan_files f rest
                (record_images images file_path all_images)
                (dict_set file_images file_path images)
          end
      end
  end.

(** What the scan extracts from the file at [file_path]; nothing when the
    read raises. *)
Definition extract_of {O : SetOrder} (f : fs) (file_path : str) : list str :=
  match f file_path with
  | Some content => extract_image_links content
  | None => []
  end.

(** The documents of [paths] whose extraction holds [url], in scan order. *)
Definition documents_with {O : SetOrder} (f : fs) (paths : list str) (url : str)
  : list str :=
  filter (fun file_path => mem url (extract_of f file_path)) paths.

(** Appending the documents [new] to the entry [old] of a reference. *)
Definition merge (old : option (list str)) (new : list str)
  : option (list str) :=
  match new with
  | [] => old
  | _ => Some (match old with Some l => l | None => [] end ++ new)
  end.

(** The characters that can end the value of an attribute or of [url(]. *)
Definition is_quote (c : ascii) : bool := (ascii_eqb c dq || ascii_eqb c sq)%bool.
Definition is_close_paren (c : ascii) : bool := ascii_eqb c ")"%char.
Definition closes (c : ascii) : bool := (is_quote c || is_close_paren c)%bool.

(** The outcomes of [requests.get] that end [download_image] in its
    [except] branch. *)
Definition fails (r : response) : bool :=
  match r with
  | TransportError => true
  | Response status _ => raises_for_status status
  end.

(** Two invariants of the scan.  Every entry of [file_images] is a
    non-empty path with what the scan extracted from it. *)
Definition faithful {O : SetOrder} (f : fs) (file_images : dict (list str))
  : Prop :=
  forall p images, In (p, images) file_images ->
    p <> [] /\ images = extract_of f p.

(** Every reference of the index occurs in a recorded document. *)
Definition backed {O : SetOrder} (f : fs)
  (all_images file_images : dict (list str)) : Prop :=
  forall url, In url (keys all_images) ->
    exists p, In p (keys file_images) /\ mem url (extract_of f p) = true.

(** *** main, step 2: fetching, one reference after the other *)

Fixpoint first_file (file_images : dict (list str)) (url : str) : option str :=
  match file_images with
  | [] => None
  | (file_path, images) :: rest =>
      if mem url images then Some file_path else first_file rest url
  end.

(** Truth value of [first_file] in [if first_file:]. *)
Definition truthy (o : option str) : bool :=
  match o with
  | Some (_ :: _) => true
  | _ => false
  end.

Definition image_filename (h : Host) (idx : nat) (url : str) : str :=
  lit "image_" ++ str_of_nat idx ++ get_image_extension h url.

Definition image_output_path (h : Host) (first : str) (filename : str) : str :=
  path_join h (path_join h (dirname h first) (lit "images")) filename.

Record fetched : Type := {
  after : world;
  image_mapping : dict str;
  downloaded : nat
}.

Fixpoint download_all (h : Host) (file_images : dict (list str))
  (items : list (str * list str)) (idx : nat) (st : fetched) : fetched :=
  match items with
  | [] => st
  | (url, _) :: rest =>
      let first := first_file file_images url in
      if truthy first then
        let filename := image_filename h idx url in
        let output_path :=
          image_output_path h (match first with Some p => p | None => [] end)
            filename in
        let '(ok, w') := download_image h url output_path (after st) in
        if ok
        then download_all h file_images rest (S idx)
               {| after := w';
                  image_mapping := dict_set (image_mapping st) url filename;
                  downloaded := S (downloaded st) |}
        else download_all h file_images rest (S idx)
               {| after := w'; image_mapping := image_mapping st;
                  downloaded := downloaded st |}
      else download_all h file_images rest (S idx) st
  end.

(** Steps 1 and 2 of [main] on the files [paths] of the tree. *)
Definition main_fetch {O : SetOrder} (h : Host) (paths : list str) (w : world)
  : dict (list str) * dict (list str) * fetched :=
  let '(all_images, file_images) := scan_files (files w) paths [] [] in
  (all_images, file_images,
   download_all h file_images all_images 1
     {| after := w; image_mapping := []; downloaded := 0 |}).

(** *** main, step 3: rewriting the documents that hold references.
    A document whose read raises is skipped. *)

Fixpoint rewrite_all (image_mapping : dict str)
  (file_images : dict (list str)) (f : fs)
  (files_modified total_replacements : nat) : fs * nat * nat :=
  match file_images with
  | [] => (f, files_modified, total_replacements)
  | (file_path, _) :: rest =>
      match f file_path with
      | None =>
          rewrite_all image_mapping rest f files_modified total_replacements
      | Some content =>
          let '(modified_content, replacements) :=
            replace_image_links content image_mapping in
          if Nat.ltb 0 replacements
          then rewrite_all image_mapping rest
                 (write f file_path modified_content)
                 (S files_modified) (total_replacements + replacements)
          else rewrite_all image_mapping rest f files_modified
                 total_replacements
      end
  end.

Record summary : Type := {
  images_downloaded : nat;
  files_modified : nat;
  total_replaced : nat;
  final : fs
}.

Definition main {O : SetOrder} (h : Host) (paths : list str) (w : world)
  : summary :=
  let '(_, file_images, st) := main_fetch h paths w in
  let '(f, modified, replaced) :=
    rewrite_all (image_mapping st) file_images (files (after st)) 0 0 in
  {| images_downloaded := downloaded st; files_modified := modified;
     total_replaced := replaced; final := f |}.

(** The entry the scan records in [file_images] for one document: none
    when nothing is extracted from it. *)
Definition recorded {O : SetOrder} (f : fs) (file_path : str)
  : list (str * list str) :=
  match extract_of f file_path with
  | [] => []
  | images => [(file_path, images)]
  end.

(** What the filter loop makes of one candidate, told by its prefix
    alone. *)
Definition kept (url : str) : list str :=
  if (startswith (lit "http://") url || startswith (lit "https://") url)%bool
  then [url]
  else if startswith (lit "//") url then [lit "https:" ++ url]
  else [].

End Images.

(** ** download_panopto_videos.py *)

Module Panopto.
Import Py Re Env.

(** [[^&\x22'<>\s]] and [[^\x22'<>\s]] *)
Definition not_delim_amp : atom :=
  ASet true [IChr "&"%char; IChr dq; IChr sq; IChr "<"%char; IChr ">"%char;
             ISpace].
Definition not_delim : atom :=
  ASet true [IChr dq; IChr sq; IChr "<"%char; IChr ">"%char; ISpace].

Definition enc (encoded plain : string) : re :=
  Alt (Str (lit encoded)) (Str (lit plain)).

(** The redirect-wrapped form.  The source writes the alternative for the
    question mark as [(?:%3F|\\?)] in a raw string, which is: the text %3F,
    or an optional backslash. *)
Definition google_redirect_pattern (video_id : str) : re :=
  Images.seq
    [Str (lit "http"); Opt (Atom (AChr "s"%char));
     Str (lit "://www.google.com/url?q=http"); Opt (Atom (AChr "s"%char));
     enc "%3A" ":"; enc "%2F" "/"; enc "%2F" "/";
     Star not_delim_amp; Str (lit "panopto.com"); enc "%2F" "/";
     Star not_delim_amp;
     Alt (Str (lit "%3F")) (Opt (Atom (AChr bsl)));
     Str (lit "id"); enc "%3D" "=";
     Str video_id;
     Star not_delim_amp; enc "&amp;" "&"; Star not_delim].

(** The direct form:
    [https?://[^/]*panopto\.com/Panopto/Pages/(?:Viewer|Embed)\.aspx\?id=ID[^\x22'<>\s]*] *)
Definition direct_pattern (video_id : str) : re :=
  Images.seq
    [Str (lit "http"); Opt (Atom (AChr "s"%char)); Str (lit "://");
     Star (ASet true [IChr "/"%char]);
     Str (lit "panopto.com/Panopto/Pages/");
     Alt (Str (lit "Viewer")) (Str (lit "Embed"));
     Str (lit ".aspx?id="); Str video_id; Star not_delim].

Fixpoint replace_patterns (local_path : str) (pats : list re)
  (modified : str) (replacements : nat) : str * nat :=
  match pats with
  | [] => (modified, replacements)
  | pattern :: rest =>
      match findall true pattern modified with
      | [] => replace_patterns local_path rest modified replacements
      | matches =>
          replace_patterns local_path rest
            (sub true pattern (fun _ => local_path) modified)
            (replacements + List.length matches)
      end
  end.

(** The replacement text [videos/<file>] is taken literally: the file names
    the script assigns contain no backslash. *)
Fixpoint replace_entries (video_mapping : dict str) (modified : str)
  (replacements : nat) : str * nat :=
  match video_mapping with
  | [] => (modified, replacements)
  | (video_id, local_filename) :: rest =>
      let local_path := lit "videos/" ++ local_filename in
      let '(modified', replacements') :=
        replace_patterns local_path
          [google_redirect_pattern video_id; direct_pattern video_id]
          modified replacements in
      replace_entries rest modified' replacements'
  end.

Definition replace_panopto_links (html_content : str) (video_mapping : dict str)
  : str * nat :=
  replace_entries video_mapping html_content 0.

(** *** Extraction.  [urllib.parse.unquote] is a parameter. *)

(** [[a-f0-9\-]] *)
Definition hex_char : atom :=
  ASet false [IRng "a"%char "f"%char; IRng "0"%char "9"%char; IChr "-"%char].

(** [[?&]id=([a-f0-9\-]+)] *)
Definition id_pattern : re :=
  Images.seq [Atom (ASet false [IChr "?"%char; IChr "&"%char]);
              Str (lit "id="); Grp (Plus hex_char)].

Definition extract_panopto_id (unquote : str -> str) (url : str) : option str :=
  match search true id_pattern (unquote url) with
  | Some (_, video_id) => Some video_id
  | None => None
  end.

(** [https?://www\.google\.com/url\?q=([^&\x22'<>\s]+)] *)
Definition google_redirect_extract : re :=
  Images.seq [Str (lit "http"); Opt (Atom (AChr "s"%char));
              Str (lit "://www.google.com/url?q="); Grp (Plus not_delim_amp)].

(** [https?://[^/]*panopto\.com/Panopto/Pages/(?:Viewer|Embed)\.aspx\?[^\x22'<>\s]+] *)
Definition direct_extract : re :=
  Images.seq [Str (lit "http"); Opt (Atom (AChr "s"%char)); Str (lit "://");
              Star (ASet true [IChr "/"%char]);
              Str (lit "panopto.com/Panopto/Pages/");
              Alt (Str (lit "Viewer")) (Str (lit "Embed"));
              Str (lit ".aspx?"); Plus not_delim].

Record video : Type := {
  url : str;
  id : str
}.

Definition clean_prefix : str :=
  lit "https://montessori-ami.hosted.panopto.com/Panopto/Pages/Viewer.aspx?id=".

(** The URLs found: the decoded redirect targets that name panopto.com,
    then the direct links. *)
Definition all_urls (unquote : str -> str) (html_content : str) : list str :=
  filter (fun decoded => contains (lit "panopto.com") (map lower decoded))
    (map unquote (findall true google_redirect_extract html_content))
  ++ findall true direct_extract html_content.

(** An id is kept when it is not empty ([if video_id:]). *)
Fixpoint panopto_data (unquote : str -> str) (urls : list str) : list video :=
  match urls with
  | [] => []
  | u :: rest =>
      match extract_panopto_id unquote u with
      | Some (c :: video_id) =>
          {| url := clean_prefix ++ c :: video_id; id := c :: video_id |}
          :: panopto_data unquote rest
      | _ => panopto_data unquote rest
      end
  end.

(** Keep the first video of each id. *)
Fixpoint unique_data (data : list video) (seen_ids : list str) : list video :=
  match data with
  | [] => []
  | v :: rest =>
      if mem (id v) seen_ids then unique_data rest seen_ids
      else v :: unique_data rest (id v :: seen_ids)
  end.

Definition extract_panopto_links (unquote : str -> str) (html_content : str)
  : list video :=
  unique_data (panopto_data unquote (all_urls unquote html_content)) [].

(** The characters of a Panopto id as the pattern accepts them. *)
Definition is_hex_char (c : ascii) : bool :=
  (between 97 102 (code c) || between 65 70 (code c)
   || between 48 57 (code c) || ascii_eqb c "-"%char)%bool.

(** A video as the extraction builds it. *)
Definition canonical (v : video) : Prop :=
  id v <> []
  /\ forallb is_hex_char (id v) = true
  /\ url v = clean_prefix ++ id v.

End Panopto.

(** ** download_youtube_videos.py *)

Module YouTube.
Import Py Re Env.

(** [[a-zA-Z0-9_-]] *)
Definition id_char : atom :=
  ASet false [IRng "a"%char "z"%char; IRng "A"%char "Z"%char;
              IRng "0"%char "9"%char; IChr "_"%char; IChr "-"%char].

Definition scheme : re := Cat (Str (lit "http")) (Opt (Atom (AChr "s"%char))).
Definition www : re := Opt (Str (lit "www.")).

(** The three URL shapes, up to the video id. *)
Definition watch_prefix : re :=
  Images.seq [scheme; Str (lit "://"); www; Str (lit "youtube.com/watch?v=")].
Definition embed_prefix : re :=
  Images.seq [scheme; Str (lit "://"); www; Str (lit "youtube.com/embed/")].
Definition short_prefix : re :=
  Images.seq [scheme; Str (lit "://youtu.be/")].

Definition prefixes : list re := [watch_prefix; embed_prefix; short_prefix].

Record video : Type := {
  id : str;
  url : str;
  watch_url : str
}.

Definition extract_patterns : list re :=
  map (fun p => Cat p (Grp (Plus id_char))) prefixes.

Definition youtube_data (html_content : str) : list video :=
  flat_map
    (fun pattern =>
       map (fun m => {| id := snd m; url := fst m;
                        watch_url :=
                          lit "https://www.youtube.com/watch?v=" ++ snd m |})
         (finditer true pattern html_content))
    extract_patterns.

(** Keep the first video of each id, in order of first appearance. *)
Fixpoint unique_videos (data : list video) (seen : dict video) : dict video :=
  match data with
  | [] => seen
  | v :: rest =>
      if dict_mem seen (id v) then unique_videos rest seen
      else unique_videos rest (dict_set seen (id v) v)
  end.

Definition extract_youtube_links (html_content : str) : list video :=
  map snd (unique_videos (youtube_data html_content) []).

Definition youtube_file (video_number : nat) : str :=
  lit "youtube_" ++ str_of_nat video_number ++ lit ".mp4".

(** [download_youtube_video]: the whole body is inside [try]. *)
Definition download_youtube_video (h : Host) (video_id destination_folder : str)
  (video_number : nat) (w : world) : bool * world :=
  let output_path := path_join h destination_folder (youtube_file video_number) in
  if exists_ (files w) output_path then (true, w)
  else
    let url := lit "https://www.youtube.com/watch?v=" ++ video_id in
    let called := downloads w ++ [(url, output_path)] in
    match downloader h (downloads w) url output_path (files w) with
    | Raised f =>
        (false, {| files := f; requests := requests w; downloads := called |})
    | Returned f =>
        if (exists_ f output_path && Nat.ltb 0 (getsize f output_path))%bool
        then (true, {| files := f; requests := requests w;
                       downloads := called |})
        else
          (false,
           {| files := if exists_ f output_path then remove f output_path
                       else f;
              requests := requests w; downloads := called |})
    end.

(** The video id is spliced into the pattern as it is; ids come from
    [[a-zA-Z0-9_-]+] and so stand for themselves. *)
Definition replace_patterns_of (video_id : str) : list re :=
  map (fun p => Images.seq [p; Str video_id; Star Panopto.not_delim]) prefixes.

Fixpoint replace_patterns (local_path : str) (pats : list re)
  (modified_content : str) (replacements : nat) : str * nat :=
  match pats with
  | [] => (modified_content, replacements)
  | pattern :: rest =>
      let new_content := sub true pattern (fun _ => local_path) modified_content in
      if str_eqb new_content modified_content
      then replace_patterns local_path rest modified_content replacements
      else replace_patterns local_path rest new_content (S replacements)
  end.

Fixpoint replace_entries (video_id_mapping : dict str) (modified_content : str)
  (replacements : nat) : str * nat :=
  match video_id_mapping with
  | [] => (modified_content, replacements)
  | (video_id, local_path) :: rest =>
      let '(modified', replacements') :=
        replace_patterns local_path (replace_patterns_of video_id)
          modified_content replacements in
      replace_entries rest modified' replacements'
  end.

Definition replace_youtube_links (html_content : str)
  (video_id_mapping : dict str) : str * nat :=
  replace_entries video_id_mapping html_content 0.

(** The download loop of [process_html_file]. *)
Fixpoint download_videos (h : Host) (destination_folder : str)
  (videos : list video) (i : nat) (mapping : dict str) (downloaded : nat)
  (w : world) : dict str * nat * world :=
  match videos with
  | [] => (mapping, downloaded, w)
  | v :: rest =>
      let local_path := lit "videos/" ++ youtube_file i in
      let '(ok, w') := download_youtube_video h (id v) destination_folder i w in
      if ok
      then download_videos h destination_folder rest (S i)
             (dict_set mapping (id v) local_path) (S downloaded) w'
      else download_videos h destination_folder rest (S i) mapping downloaded w'
  end.

(** [process_html_file(filepath)]; every exception ends it with 0.
    [filepath.relative_to(filepath.parents[3])] raises on a shallow path. *)
Definition process_html_file (h : Host) (filepath : str) (w : world)
  : nat * world :=
  match files w filepath with
  | None => (0, w)
  | Some content =>
      match extract_youtube_links content with
      | [] => (0, w)
      | youtube_videos =>
          if negb (parents3_ok h filepath) then (0, w)
          else
            let destination_folder := path_join h (dirname h filepath) (lit "videos") in
            let '(video_id_mapping, downloaded, w1) :=
              download_videos h destination_folder youtube_videos 1 [] 0 w in
            match video_id_mapping with
            | [] => (downloaded, w1)
            | _ =>
                let '(modified_content, replacements) :=
                  replace_youtube_links content video_id_mapping in
                if Nat.ltb 0 replacements
                then (downloaded,
                      {| files := write (files w1) filepath modified_content;
                         requests := requests w1; downloads := downloads w1 |})
                else (downloaded, w1)
            end
      end
  end.

(** The characters of an id: letters, digits, underscore and hyphen. *)
Definition is_id_char (c : ascii) : bool :=
  (between 97 122 (code c) || between 65 90 (code c)
   || between 48 57 (code c) || ascii_eqb c "_"%char
   || ascii_eqb c "-"%char)%bool.

Definition well_formed_id (video_id : str) : Prop :=
  video_id <> [] /\ forallb is_id_char video_id = true.

End YouTube.

(** ** download_videos.py *)

Module Drive.
Import Py Re Env.

Definition id_group : re := Grp (Plus YouTube.id_char).

Definition patterns : list re :=
  [ Cat (Str (lit "https://drive.google.com/file/d/")) id_group;
    Cat (Str (lit "https://drive.google.com/open?id=")) id_group;
    Cat (Str (lit "https://docs.google.com/file/d/")) id_group ].

Definition extract_google_drive_links (html_content : str) : list str :=
  flat_map
    (fun pattern =>
       map (fun file_id =>
              lit "https://drive.google.com/uc?export=download&id=" ++ file_id)
         (findall false pattern html_content))
    patterns.

Definition video_file (file_number : nat) : str :=
  lit "video_" ++ str_of_nat file_number ++ lit ".mp4".

(** [download_file]; [urllib.request.urlretrieve] is the downloader. *)
Definition download_file (h : Host) (url destination_folder : str)
  (file_number : nat) (w : world) : bool * world :=
  let filepath := path_join h destination_folder (video_file file_number) in
  if exists_ (files w) filepath then (true, w)
  else
    let called := downloads w ++ [(url, filepath)] in
    match downloader h (downloads w) url filepath (files w) with
    | Raised f =>
        (false, {| files := f; requests := requests w; downloads := called |})
    | Returned f =>
        (true, {| files := f; requests := requests w; downloads := called |})
    end.

Fixpoint download_links (h : Host) (destination_folder : str)
  (links : list str) (i : nat) (downloaded : nat) (w : world) : nat * world :=
  match links with
  | [] => (downloaded, w)
  | link :: rest =>
      let '(ok, w') := download_file h link destination_folder i w in
      download_links h destination_folder rest (S i)
        (if ok then S downloaded else downloaded) w'
  end.

Definition process_html_file (h : Host) (filepath : str) (w : world)
  : nat * world :=
  match files w filepath with
  | None => (0, w)
  | Some content =>
      match extract_google_drive_links content with
      | [] => (0, w)
      | links =>
          download_links h (path_join h (dirname h filepath) (lit "videos"))
            links 1 0 w
      end
  end.

(** The processing loop of [main] over the HTML files of the tree. *)
Fixpoint process_all (h : Host) (html_files : list str)
  (total_downloaded files_with_videos : nat) (w : world) : nat * nat * world :=
  match html_files with
  | [] => (total_downloaded, files_with_videos, w)
  | html_file :: rest =>
      let '(downloaded, w') := process_html_file h html_file w in
      if Nat.ltb 0 downloaded
      then process_all h rest (total_downloaded + downloaded)
             (S files_with_videos) w'
      else process_all h rest total_downloaded files_with_videos w'
  end.

End Drive.

(** ** download_videos_gdown.py *)

Module Gdown.
Import Py Re Env.

Definition patterns : list re :=
  Drive.patterns ++
  [ Cat (Str (lit "drive.google.com/uc?export=download&amp;id=")) Drive.id_group;
    Cat (Str (lit "drive.google.com/uc?id=")) Drive.id_group ].

(** All matches, pattern by pattern, before they are put in the set. *)
Definition found_ids (html_content : str) : list str :=
  flat_map (fun pattern => findall false pattern html_content) patterns.

Definition extract_google_drive_file_ids {O : SetOrder} (html_content : str)
  : list str :=
  set_list (found_ids html_content).

Definition gdown_url (file_id : str) : str :=
  lit "https://drive.google.com/uc?id=" ++ file_id.

(** [download_video]: the whole body is inside [try]. *)
Definition download_video (h : Host) (file_id destination_folder : str)
  (file_number : nat) (w : world) : bool * world :=
  let url := gdown_url file_id in
  let output_path := path_join h destination_folder (Drive.video_file file_number) in
  if exists_ (files w) output_path then (true, w)
  else
    let called := downloads w ++ [(url, output_path)] in
    match downloader h (downloads w) url output_path (files w) with
    | Raised f =>
        (false, {| files := f; requests := requests w; downloads := called |})
    | Returned f =>
        if (exists_ f output_path && Nat.ltb 0 (getsize f output_path))%bool
        then (true, {| files := f; requests := requests w;
                       downloads := called |})
        else
          (false,
           {| files := if exists_ f output_path then remove f output_path
                       else f;
              requests := requests w; downloads := called |})
    end.

Fixpoint download_ids (h : Host) (destination_folder : str)
  (file_ids : list str) (i : nat) (downloaded : nat) (w : world) : nat * world :=
  match file_ids with
  | [] => (downloaded, w)
  | file_id :: rest =>
      let '(ok, w') := download_video h file_id destination_folder i w in
      download_ids h destination_folder rest (S i)
        (if ok then S downloaded else downloaded) w'
  end.

Definition destination_folder (h : Host) (filepath : str) : str :=
  path_join h (dirname h filepath) (lit "videos").

(** The downloader calls a document asks for when none of its
    destinations exists: the i-th id goes to [video_i.mp4]. *)
Fixpoint plan (h : Host) (destination_folder : str) (file_ids : list str)
  (i : nat) : list (str * str) :=
  match file_ids with
  | [] => []
  | file_id :: rest =>
      (gdown_url file_id, path_join h destination_folder (Drive.video_file i))
      :: plan h destination_folder rest (S i)
  end.

(** The ids of the document at [filepath]; none when the read raises. *)
Definition ids_of {O : SetOrder} (f : fs) (filepath : str) : list str :=
  match f filepath with
  | Some content => extract_google_drive_file_ids content
  | None => []
  end.

Definition process_html_file {O : SetOrder} (h : Host) (filepath : str) (w : world)
  : nat * world :=
  match files w filepath with
  | None => (0, w)
  | Some content =>
      match extract_google_drive_file_ids content with
      | [] => (0, w)
      | file_ids =>
          if negb (parents3_ok h filepath) then (0, w)
          else download_ids h (destination_folder h filepath) file_ids 1 0 w
      end
  end.

Fixpoint process_all {O : SetOrder} (h : Host) (html_files : list str)
  (total_downloaded files_with_videos : nat) (w : world) : nat * nat * world :=
  match html_files with
  | [] => (total_downloaded, files_with_videos, w)
  | html_file :: rest =>
      let '(downloaded, w') := process_html_file h html_file w in
      if Nat.ltb 0 downloaded
      then process_all h rest (total_downloaded + downloaded)
             (S files_with_videos) w'
      else process_all h rest total_downloaded files_with_videos w'
  end.

(** [scan_for_links]: the documents that hold ids, each with its ids, in
    the order of the scan.  A document that cannot be read is passed over.
    The key is the path relative to [base_dir], which names a file under
    [base_dir] as the path itself does. *)
Fixpoint scan_for_links {O : SetOrder} (f : fs) (html_files : list str)
  (all_links : dict (list str)) : dict (list str) :=
  match html_files with
  | [] => all_links
  | html_file :: rest =>
      match f html_file with
      | None => scan_for_links f rest all_links
      | Some content =>
          match extract_google_drive_file_ids content with
          | [] => scan_for_links f rest all_links
          | file_ids =>
              scan_for_links f rest (dict_set all_links html_file file_ids)
          end
      end
  end.

(** [sum(len(ids) for ids in all_links.values())] *)
Definition total_videos (all_links : dict (list str)) : nat :=
  list_sum (map (fun e => List.length (snd e)) all_links).

End Gdown.

(** ** fix_all_html.py *)

Module FixHtml.
Import Py Re Env.

(** The lines of the script the injector adds; each ends with a newline. *)
Definition REDIRECT_BLOCKER_lines : list string :=
  [
   "    <script>";
   "      // ULTRA AGGRESSIVE REDIRECT BLOCKER - BLOCKS ALL NAVIGATION";
   "      (function() {";
   "        'use strict';";
   "        ";
   "        var currentHref = window.location.href;";
   "        var blocked = false;";
   "        ";
   "        // Store original functions";
   "        var originalPushState = history.pushState;";
   "        var originalReplaceState = history.replaceState;";
   "        ";
   "        // Block history API";
   "        history.pushState = function() { console.log('Blocked pushState'); };";
   "        history.replaceState = function() { console.log('Blocked replaceState'); };";
   "        ";
   "        // Completely freeze window.location";
   "        Object.defineProperty(window, 'location', {";
   "          configurable: false,";
   "          get: function() {";
   "            return {";
   "              href: currentHref,";
   "              protocol: 'file:',";
   "              host: '',";
   "              hostname: '',";
   "              port: '',";
   "              pathname: currentHref,";
   "              search: '',";
   "              hash: '',";
   "              origin: 'file://',";
   "              replace: function() { console.log('Blocked location.replace'); },";
   "              assign: function() { console.log('Blocked location.assign'); },";
   "              reload: function() { console.log('Blocked location.reload'); },";
   "              toString: function() { return currentHref; },";
   "              valueOf: function() { return currentHref; }";
   "            };";
   "          },";
   "          set: function(value) {";
   "            console.log('Blocked location set to:', value);";
   "          }";
   "        });";
   "        ";
   "        // Block window.open";
   "        window.open = function() {";
   "          console.log('Blocked window.open');";
   "          return null;";
   "        };";
   "        ";
   "        // Block beforeunload";
   "        window.addEventListener('beforeunload', function(e) {";
   "          e.preventDefault();";
   "          e.stopPropagation();";
   "          e.stopImmediatePropagation();";
   "          console.log('Blocked beforeunload');";
   "          return false;";
   "        }, true);";
   "        ";
   "        // Block all click events that might navigate";
   "        document.addEventListener('click', function(e) {";
   "          var target = e.target;";
   "          while (target) {";
   "            if (target.tagName === 'A' && target.href && target.href.includes('sites.google.com')) {";
   "              e.preventDefault();";
   "              e.stopPropagation();";
   "              e.stopImmediatePropagation();";
   "              console.log('Blocked click on link to:', target.href);";
   "              return false;";
   "            }";
   "            target = target.parentElement;";
   "          }";
   "        }, true);";
   "        ";
   "        // Monitor and block meta refresh tags";
   "        setInterval(function() {";
   "          var metas = document.getElementsByTagName('meta');";
   "          for (var i = 0; i < metas.length; i++) {";
   "            if (metas[i].httpEquiv && metas[i].httpEquiv.toLowerCase() === 'refresh') {";
   "              console.log('Removed meta refresh tag');";
   "              metas[i].remove();";
   "            }";
   "          }";
   "        }, 100);";
   "        ";
   "        console.log('REDIRECT BLOCKER ACTIVE - All navigation blocked');";
   "      })();";
   "    </script>"
  ]%string.

Definition REDIRECT_BLOCKER : str :=
  flat_map (fun l => lit l ++ [nl]) REDIRECT_BLOCKER_lines.

Definition marker : str := lit "REDIRECT BLOCKER ACTIVE".

Definition disabled_open : str :=
  [nl] ++ lit "    <!--SCRIPTS DISABLED TO PREVENT REDIRECT-->" ++ [nl]
  ++ lit "    <!--" ++ [nl] ++ lit "    ".

Definition disabled_close : str :=
  lit "    END DISABLED SCRIPTS-->" ++ [nl] ++ lit "  </head>".

(** The template [\1\n] followed by the blocker, applied to a match: the
    blocker has no backslash, so it is copied as it is. *)
Definition replacement (m0 : str) : str := m0 ++ [nl] ++ REDIRECT_BLOCKER.

(** Commenting out the scripts that follow the last style sheet of the
    head.  [new_content] already carries the blocker. *)
Definition disable_scripts (new_content : str) (head_end : nat) : str :=
  let head_section := firstn head_end new_content in
  match rfind (lit "</style>") head_section with
  | None => new_content
  | Some last_style_end =>
      match find (lit "<script") head_section last_style_end with
      | None => new_content
      | Some next_script =>
          if Nat.ltb next_script head_end then
            replace_first (lit "</head>") disabled_close
              (firstn next_script new_content ++ disabled_open
               ++ skipn next_script new_content)
          else new_content
      end
  end.

(** [process_html_file(filepath)]: the result and the files afterwards.
    A read that raises ends in the [except] branch, which returns False. *)
Definition process_html_file (f : fs) (filepath : str) : bool * fs :=
  match f filepath with
  | None => (false, f)
  | Some content =>
      if contains marker content then (false, f)
      else
        let new_content :=
          sub_count false (Grp (Str (lit "<head>"))) replacement content 1 in
        if str_eqb new_content content then (false, f)
        else
          match find (lit "</head>") new_content 0 with
          | None => (false, f)
          | Some head_end =>
              (true, write f filepath (disable_scripts new_content head_end))
          end
  end.

(** The loop of [main]: the files afterwards and the three counters.
    [process_html_file] returns True or False, never None, so the branch
    that counts errors is not taken. *)
Fixpoint process_files (f : fs) (html_files : list str)
  (processed skipped errors : nat) : fs * nat * nat * nat :=
  match html_files with
  | [] => (f, processed, skipped, errors)
  | html_file :: rest =>
      let '(result, f') := process_html_file f html_file in
      if result then process_files f' rest (S processed) skipped errors
      else process_files f' rest processed (S skipped) errors
  end.

Definition main (f : fs) (html_files : list str) : fs * nat * nat * nat :=
  process_files f html_files 0 0 0.

End FixHtml.

(** ** Concrete documents, mappings and hosts used in the examples *)

Module Samples.
Import Py Re Env.

(** [list(set(l))] in order of first appearance from the right. *)
#[export] Instance stdlib_order : SetOrder := {|
  set_list := nodup str_dec;
  set_list_NoDup := NoDup_nodup str_dec;
  set_list_In := fun l x => nodup_In str_dec l x
|}.

(** POSIX-style [dirname] and [join]. *)
Fixpoint dirname_posix (p : str) : str :=
  match p with
  | [] => []
  | c :: p' =>
      if contains (lit "/") p' then c :: dirname_posix p' else []
  end.

Definition join_posix (a b : str) : str :=
  match a with
  | [] => b
  | _ => a ++ lit "/" ++ b
  end.

(** A downloader that stores four bytes at the destination and returns. *)
Definition store_ok (_ : list (str * str)) (_ out : str) (f : fs) : outcome :=
  Returned (write f out (lit "data")).

(** A downloader that stores part of the file and then raises. *)
Definition store_then_raise (_ : list (str * str)) (_ out : str) (f : fs)
  : outcome :=
  Raised (write f out (lit "par")).

(** A server that answers every request with the given status and body. *)
Definition always (status : nat) (body : string) (_ : list str) (_ : str)
  : response :=
  Response status (lit body).

Definition host (get : list str -> str -> response)
  (dl : list (str * str) -> str -> str -> fs -> outcome) : Host :=
  {| http_get := get; downloader := dl; urlparse_path := fun u => u;
     dirname := dirname_posix; path_join := join_posix;
     parents3_ok := fun _ => true |}.

Definition start (f : fs) : world :=
  {| files := f; requests := []; downloads := [] |}.

(** Two YouTube links, the id of the first a proper prefix of the second. *)
Definition youtube_doc : str :=
  lit "<a href='https://youtu.be/abc'>one</a> <a href='https://youtu.be/abcdef'>two</a>".

Definition youtube_mapping : dict str :=
  [(lit "abc", lit "videos/youtube_1.mp4");
   (lit "abcdef", lit "videos/youtube_2.mp4")].

(** A Panopto link whose id begins with the id being replaced. *)
Definition panopto_doc : str :=
  lit "<a href='https://h.panopto.com/Panopto/Pages/Viewer.aspx?id=abcdef-12'>".

(** A document with an image whose URL differs in letter case from one
    that is fetched, next to an image whose fetch fails; the mapping a run
    builds when only [a.png] can be fetched; a second document that holds
    [a.png] as it is mapped; and the server of that run. *)
Definition case_doc : str :=
  lit "<img src='HTTPS://x.com/a.png'><img src='https://x.com/b.png'>".

Definition image_map : dict str :=
  [(lit "https://x.com/a.png", lit "image_1.png")].

Definition plain_doc : str := lit "<img src='https://x.com/a.png'>".

Definition serves_only (good : str) (_ : list str) (url : str) : response :=
  if str_eqb url good then Response 200 (lit "img") else Response 404 [].

Definition case_world : world :=
  {| files := write (write fs_empty (lit "site/one.html") plain_doc)
                (lit "site/two.html") case_doc;
     requests := []; downloads := [] |}.

(** The truncated attribute: [<img src=\x22https://] and nothing more. *)
Definition truncated_doc : str := lit "<img src=" ++ [dq] ++ lit "https://".


(** A document with two images, and a server whose first answer is a
    time-out while every later request is served. *)
Definition two_images_doc : str :=
  lit "<img src='https://x.com/a.png'><img src='https://x.com/b.png'>".


Definition two_images_world : world :=
  start (write fs_empty (lit "site/x.html") two_images_doc).


(** Two documents that name the Drive file ABC123 in different ways. *)
Definition drive_doc1 : str :=
  lit "<img src='https://drive.google.com/file/d/ABC123/view'>".
Definition drive_doc2 : str :=
  lit "<a href='https://drive.google.com/open?id=ABC123'>".

Definition drive_fs : fs :=
  write (write fs_empty (lit "s/a/b/c/x.html") drive_doc1)
    (lit "s/a/b/d/y.html") drive_doc2.

(** A run in which [videos/video_1.mp4] and [images/image_1.png] are
    already on disk. *)
Definition present : world :=
  start (write (write fs_empty (lit "videos/video_1.mp4") (lit "old video"))
           (lit "images/image_1.png") (lit "old image")).

(** A page that has not been processed, and the files holding it. *)
Definition page : str :=
  lit "<html><head><style>a{}</style><script src='x.js'></script></head><body></body></html>".

Definition site : fs := write fs_empty (lit "index.html") page.

(** The same files after the injector has run once. *)
Definition site_done : fs :=
  snd (FixHtml.process_html_file site (lit "index.html")).

(** A server that answers every request, and the run of the two-image
    document against it. *)
Definition both_served : Host := host (always 200 "img") store_ok.

(** A downloader that always raises and touches nothing, and the host
    with it. *)
Definition raises_at_once (_ : list (str * str)) (_ _ : str) (f : fs)
  : outcome :=
  Raised f.

Definition offline : Host := host (always 200 "") raises_at_once.

Definition youtube_world : world :=
  start (write fs_empty (lit "s/a/b/c/x.html") youtube_doc).

(** A page whose head tag is in capitals, and a page whose head holds no
    style sheet. *)
Definition capital_page : str :=
  lit "<HTML><HEAD><title>t</title></HEAD><body></body></HTML>".

Definition capital_site : fs := write fs_empty (lit "index.html") capital_page.

Definition bare_page : str :=
  lit "<html><head><title>t</title></head><body><head></body></html>".

Definition bare_site : fs := write fs_empty (lit "index.html") bare_page.

(** A document with no link at all. *)
Definition plain_text : str := lit "<p>No media here.</p>".


End Samples.

(** * Properties *)

(** ** Strings *)

Module PyFacts.
Import Py.

Lemma str_eqb_eq (a b : str) : str_eqb a b = true <-> a = b.
Proof.
  revert b; induction a as [|x a IH]; intros [|y b]; simpl; split;
    try congruence; try reflexivity.
  - intros H. apply andb_true_iff in H as [H1 H2].
    apply Ascii.eqb_eq in H1. apply IH in H2. congruence.
  - intros H. injection H as -> ->. apply andb_true_iff. split.
    + apply Ascii.eqb_refl.
    + now apply IH.
Qed.

Lemma str_eqb_refl (a : str) : str_eqb a a = true.
Proof. now apply str_eqb_eq. Qed.

Lemma str_eqb_neq (a b : str) : str_eqb a b = false <-> a <> b.
Proof.
  split.
  - intros H E. apply str_eqb_eq in E. congruence.
  - intros H. destruct (str_eqb a b) eqn:E; [|reflexivity].
    apply str_eqb_eq in E. contradiction.
Qed.

Lemma str_eqb_sym (a b : str) : str_eqb a b = str_eqb b a.
Proof.
  destruct (str_eqb a b) eqn:E.
  - apply str_eqb_eq in E. subst. symmetry. apply str_eqb_refl.
  - apply str_eqb_neq in E. symmetry. apply str_eqb_neq. congruence.
Qed.

End PyFacts.

(** ** The matcher on small inputs *)

Module Checks.
Import Py Re Env Samples.

(** Greedy repetition gives characters back: [[^>]+] first runs to the
    end of the tag and returns to the last [src=]. *)
Example img_two_attributes :
  findall true Images.pat_img (lit "<img alt='x' src='a.png' >")
  = [lit "a.png"].
Proof. vm_compute. reflexivity. Qed.

(** Matching ignores letter case, the captured text keeps it. *)
Example img_upper_case :
  findall true Images.pat_img (lit "<IMG SRC='HTTP://X/A.PNG'>")
  = [lit "HTTP://X/A.PNG"].
Proof. vm_compute. reflexivity. Qed.

(** A protocol-relative reference is completed with [https:]. *)
Example protocol_relative :
  Images.external_images [lit "//cdn.example.com/a.png"]
  = [lit "https://cdn.example.com/a.png"].
Proof. vm_compute. reflexivity. Qed.

(** Inline data, fragments and blank values are dropped. *)
Example dropped_values :
  Images.external_images [lit "data:image/png;base64,AAAA"; lit "#top"; lit "  ";
                          lit "images/local.png"]
  = [].
Proof. vm_compute. reflexivity. Qed.

(** The image rewriter closes the match with the delimiter: the entry for
    [a.png] leaves [a.png.bak] alone. *)
Example image_rewrite_is_delimited :
  Images.replace_image_links
    (lit "<img src='https://x.com/a.png'><img src='https://x.com/a.png.bak'>")
    image_map
  = (lit "<img src='images/image_1.png'><img src='https://x.com/a.png.bak'>", 1).
Proof. vm_compute. reflexivity. Qed.

(** The Drive patterns are matched with regard to letter case. *)
Example drive_case_sensitive :
  Gdown.found_ids (lit "https://Drive.google.com/file/d/ABC123") = []
  /\ Gdown.found_ids (lit "https://drive.google.com/file/d/ABC123")
     = [lit "ABC123"].
Proof. vm_compute. split; reflexivity. Qed.

End Checks.

(** ** Dictionaries and first-seen order *)

Module DictFacts.
Import Py Env PyFacts.

Lemma mem_In (x : str) (l : list str) : mem x l = true <-> In x l.
Proof.
  unfold mem. rewrite existsb_exists. split.
  - intros (y & Hy & E). apply str_eqb_eq in E. now subst.
  - intros H. exists x. split; [assumption|apply str_eqb_refl].
Qed.

Lemma mem_false (x : str) (l : list str) : mem x l = false <-> ~ In x l.
Proof.
  split.
  - intros H I. apply mem_In in I. congruence.
  - intros H. destruct (mem x l) eqn:E; [|reflexivity].
    apply mem_In in E. contradiction.
Qed.

Lemma mem_app (x : str) (a b : list str) :
  mem x (a ++ b) = (mem x a || mem x b)%bool.
Proof. unfold mem. apply existsb_app. Qed.

Section Dict.
Variable V : Type.
Implicit Types (d : dict V) (k : str) (v : V).

Lemma dict_mem_keys d k : dict_mem d k = mem k (keys d).
Proof.
  unfold dict_mem. induction d as [|[k' v'] d IH]; simpl; [reflexivity|].
  rewrite (str_eqb_sym k k'). destruct (str_eqb k' k); simpl; [reflexivity|].
  exact IH.
Qed.

Lemma dict_get_set d k v k' :
  dict_get (dict_set d k v) k' = if str_eqb k k' then Some v else dict_get d k'.
Proof.
  induction d as [|[k0 v0] d IH]; simpl.
  - reflexivity.
  - destruct (str_eqb k0 k) eqn:E; simpl.
    + apply str_eqb_eq in E. subst k0.
      destruct (str_eqb k k'); reflexivity.
    + destruct (str_eqb k0 k') eqn:E'; [|exact IH].
      apply str_eqb_eq in E'. subst k0.
      apply str_eqb_neq in E. rewrite str_eqb_sym.
      destruct (str_eqb k' k) eqn:X; [|reflexivity].
      apply str_eqb_eq in X. congruence.
Qed.

Lemma keys_dict_set d k v :
  keys (dict_set d k v) = if dict_mem d k then keys d else keys d ++ [k].
Proof.
  unfold dict_mem, keys. induction d as [|[k0 v0] d IH]; simpl; [reflexivity|].
  destruct (str_eqb k0 k) eqn:E; simpl; [reflexivity|].
  rewrite IH. destruct (dict_get d k); reflexivity.
Qed.

Lemma dict_get_None d k : dict_get d k = None <-> ~ In k (keys d).
Proof.
  rewrite <- mem_false, <- dict_mem_keys. unfold dict_mem.
  destruct (dict_get d k); split; congruence.
Qed.

End Dict.

Lemma add_new_app (acc a b : list str) :
  add_new acc (a ++ b) = add_new (add_new acc a) b.
Proof. revert acc. induction a as [|x a IH]; intros acc; simpl; auto. Qed.

Lemma add_new_In (acc l : list str) (x : str) :
  In x (add_new acc l) <-> In x acc \/ In x l.
Proof.
  revert acc. induction l as [|y l IH]; intros acc; simpl.
  - tauto.
  - rewrite IH. destruct (mem y acc) eqn:E.
    + apply mem_In in E. split; [tauto|].
      intros [H|[H|H]]; subst; auto.
    + rewrite in_app_iff. simpl. tauto.
Qed.

Lemma add_new_NoDup (acc l : list str) :
  NoDup acc -> NoDup (add_new acc l).
Proof.
  revert acc. induction l as [|y l IH]; intros acc H; simpl; [assumption|].
  apply IH. destruct (mem y acc) eqn:E; [assumption|].
  apply mem_false in E. apply NoDup_app; auto.
  - constructor; [intros []|constructor].
  - intros x Hx [<-|[]]. contradiction.
Qed.

Lemma first_seen_NoDup (l : list str) : NoDup (first_seen l).
Proof. apply add_new_NoDup. constructor. Qed.

End DictFacts.

(** ** The rewriters *)

Module RewriteFacts.
Import Py Re Env Samples.

(** C1.  Exact-match replacement on the captured reference value: a
    replacement for one reference must not touch another reference whose
    identifier it is a proper prefix of.  The YouTube and the Panopto
    rewriters match the identifier followed by any run of non-delimiter
    characters, so the entry for id [abc] also rewrites the link to
    [abcdef], which ends up pointing at the file of [abc]; the entry for
    [abcdef] then finds nothing left to replace. *)
Theorem C1_prefix_id_rewrites_other_reference :
  YouTube.replace_youtube_links youtube_doc youtube_mapping
  = (lit "<a href='videos/youtube_1.mp4'>one</a> <a href='videos/youtube_1.mp4'>two</a>", 1)
  /\ map YouTube.id (YouTube.extract_youtube_links youtube_doc)
     = [lit "abc"; lit "abcdef"]
  /\ files (snd (YouTube.process_html_file (host (always 200 "") store_ok)
                   (lit "x.html")
                   (start (write fs_empty (lit "x.html") youtube_doc))))
       (lit "x.html")
     = Some (lit "<a href='videos/youtube_1.mp4'>one</a> <a href='videos/youtube_1.mp4'>two</a>")
  /\ Panopto.replace_panopto_links panopto_doc [(lit "abc", lit "panopto_1.mp4")]
     = (lit "<a href='videos/panopto_1.mp4'>", 1).
Proof. repeat split; vm_compute; reflexivity. Qed.

(** What does hold of the image rewriter's count: when it is zero, no
    substitution was made and the text is returned as it came. *)
Lemma replace_patterns_zero url local_path pats modified n :
  n <= snd (Images.replace_patterns url local_path pats modified n)
  /\ (snd (Images.replace_patterns url local_path pats modified n) = n ->
      fst (Images.replace_patterns url local_path pats modified n) = modified).
Proof.
  revert modified n. induction pats as [|pattern rest IH]; intros modified n.
  - simpl. auto.
  - cbn [Images.replace_patterns].
    destruct (Nat.ltb 0 (List.length (findall true pattern modified))) eqn:L.
    + apply Nat.ltb_lt in L.
      destruct (IH (sub true pattern (fun m0 => replace url local_path m0)
                      modified)
                   (n + List.length (findall true pattern modified)))
        as [G _].
      split; lia.
    + apply IH.
Qed.

Lemma replace_entries_zero mapping modified n :
  n <= snd (Images.replace_entries mapping modified n)
  /\ (snd (Images.replace_entries mapping modified n) = n ->
      fst (Images.replace_entries mapping modified n) = modified).
Proof.
  revert modified n. induction mapping as [|[url file] rest IH];
    intros modified n.
  - simpl. auto.
  - cbn [Images.replace_entries].
    destruct (replace_patterns_zero url (lit "images/" ++ file)
                (Images.rewrite_patterns url) modified n) as [G1 E1].
    destruct (Images.replace_patterns url (lit "images/" ++ file)
                (Images.rewrite_patterns url) modified n) as [m1 n1].
    simpl in G1, E1.
    destruct (IH m1 n1) as [G2 E2].
    split; [lia|].
    intros Z. assert (n1 = n) by lia. subst n1.
    rewrite E2 by assumption. now apply E1.
Qed.

Lemma replace_image_links_zero_unchanged html mapping :
  snd (Images.replace_image_links html mapping) = 0 ->
  fst (Images.replace_image_links html mapping) = html.
Proof. apply replace_entries_zero. Qed.

(** C5.  Rewriting twice with the same mapping must report zero
    replacements the second time.  The image rewriter matches without
    regard to letter case but replaces with regard to it: on a link that
    differs from the mapped URL in case only, every pass reports one
    replacement and changes nothing, so the second pass reports one
    again. *)
Theorem C5_second_pass_counts_again :
  Images.replace_image_links case_doc image_map = (case_doc, 1)
  /\ Images.replace_image_links
       (fst (Images.replace_image_links case_doc image_map)) image_map
     = (case_doc, 1).
Proof. split; vm_compute; reflexivity. Qed.

(** C9.  The image rewriter must return its input unchanged exactly when
    it reports zero replacements.  On a link that differs from the mapped
    URL in letter case only it reports one replacement and returns the
    document as it was.  A whole run of [main] meets the case: with
    [a.png] fetched for another document and [b.png] failing, the second
    document is counted as modified, with one link replaced, and is
    written back unchanged. *)
Theorem C9_positive_count_unchanged_document :
  fst (Images.replace_image_links case_doc image_map) = case_doc
  /\ snd (Images.replace_image_links case_doc image_map) = 1
  /\ (let run := Images.main (O := stdlib_order)
                   (host (serves_only (lit "https://x.com/a.png")) store_ok)
                   [lit "site/one.html"; lit "site/two.html"] case_world in
      Images.images_downloaded run = 1
      /\ Images.files_modified run = 2
      /\ Images.total_replaced run = 2
      /\ Images.final run (lit "site/one.html")
         = Some (lit "<img src='images/image_1.png'>")
      /\ Images.final run (lit "site/two.html") = Some case_doc).
Proof. vm_compute. repeat split; reflexivity. Qed.

End RewriteFacts.

(** ** The fetchers *)

Module FetchFacts.
Import Py Re Env Samples.

(** The YouTube fetcher skips an existing destination as well. *)
Lemma download_youtube_video_skips h video_id dest n w :
  exists_ (files w) (path_join h dest (YouTube.youtube_file n)) = true ->
  YouTube.download_youtube_video h video_id dest n w = (true, w).
Proof.
  intros E. unfold YouTube.download_youtube_video. now rewrite E.
Qed.

(** The image fetcher asks the server on every call. *)
Lemma download_image_requests h url out w :
  requests (snd (Images.download_image h url out w)) = requests w ++ [url].
Proof.
  unfold Images.download_image.
  destruct (http_get h (requests w) url) as [status content|]; simpl.
  - destruct (raises_for_status status); reflexivity.
  - reflexivity.
Qed.

(** C3, as the code has it.  The video fetchers [download_file] and
    [download_video] return success when the destination file exists,
    without calling the downloader and without touching the files: the
    world is returned as it was.  The image fetcher [download_image] has
    no such test and requests the URL on every call, whatever is at its
    destination. *)
Theorem C3_existing_destination_skips_video_fetch
  (h : Host) (w : world) (url file_id dest : str) (n : nat) :
  exists_ (files w) (path_join h dest (Drive.video_file n)) = true ->
  Drive.download_file h url dest n w = (true, w)
  /\ Gdown.download_video h file_id dest n w = (true, w)
  /\ (forall out,
        requests (snd (Images.download_image h url out w))
        = requests w ++ [url]).
Proof.
  intros E. repeat split.
  - unfold Drive.download_file. now rewrite E.
  - unfold Gdown.download_video. now rewrite E.
  - intros out. apply download_image_requests.
Qed.

Lemma C3_existing_destination_skips_video_fetch_witness :
  exists_ (files present) (lit "videos/video_1.mp4") = true
  /\ Drive.download_file (host (always 200 "img") store_ok)
       (lit "https://drive.google.com/uc?export=download&id=ABC123")
       (lit "videos") 1 present = (true, present).
Proof.
  split; [reflexivity|].
  apply (@C3_existing_destination_skips_video_fetch
           (host (always 200 "img") store_ok) present
           (lit "https://drive.google.com/uc?export=download&id=ABC123")
           (lit "ABC123") (lit "videos") 1).
  reflexivity.
Defined.

(** C3 as stated fails for the image fetcher: with a non-empty destination
    file on disk, [download_image] still calls the server, reports failure
    when the server fails, and overwrites the file when it answers. *)
Lemma C3_counterexample_download_image_fetches_again :
  let url := lit "https://x.com/a.png" in
  let out := lit "images/image_1.png" in
  exists_ (files present) out = true
  /\ Nat.ltb 0 (getsize (files present) out) = true
  /\ (let r := Images.download_image (host (always 500 "") store_ok) url out present in
      fst r = false /\ requests (snd r) = [url])
  /\ (let r := Images.download_image (host (always 200 "img") store_ok) url out present in
      fst r = true /\ requests (snd r) = [url]
      /\ files (snd r) out = Some (lit "img")).
Proof. vm_compute. repeat split; reflexivity. Qed.

(** When the downloader returns and the fetch is reported as failed, the
    destination is gone afterwards. *)
Lemma download_video_clean_failure h file_id dest n w f :
  exists_ (files w) (path_join h dest (Drive.video_file n)) = false ->
  downloader h (downloads w) (Gdown.gdown_url file_id)
    (path_join h dest (Drive.video_file n)) (files w) = Returned f ->
  fst (Gdown.download_video h file_id dest n w) = false ->
  exists_ (files (snd (Gdown.download_video h file_id dest n w)))
    (path_join h dest (Drive.video_file n)) = false.
Proof.
  intros E D. unfold Gdown.download_video. rewrite E, D.
  destruct (exists_ f _) eqn:X; simpl.
  - destruct (Nat.ltb 0 _); simpl; [discriminate|].
    intros _. unfold exists_, remove. now rewrite PyFacts.str_eqb_refl.
  - intros _. exact X.
Qed.

(** C8.  After a failed video fetch the destination must not exist.  The
    cleanup sits in the branch taken when the downloader returns; when the
    downloader raises after storing part of the file, [download_video] and
    [download_youtube_video] return failure from the [except] branch and
    the partial file stays.  A second run then finds it and reports the
    video as already present. *)
Theorem C8_raising_downloader_leaves_partial_file :
  let h := host (always 200 "") store_then_raise in
  let out := lit "videos/video_1.mp4" in
  let r := Gdown.download_video h (lit "ABC123") (lit "videos") 1 (start fs_empty) in
  let yout := lit "videos/youtube_1.mp4" in
  let y := YouTube.download_youtube_video h (lit "abc") (lit "videos") 1 (start fs_empty) in
  fst r = false
  /\ files (snd r) out = Some (lit "par")
  /\ fst (Gdown.download_video h (lit "ABC123") (lit "videos") 1 (snd r)) = true
  /\ fst y = false
  /\ files (snd y) yout = Some (lit "par")
  /\ fst (YouTube.download_youtube_video h (lit "abc") (lit "videos") 1 (snd y)) = true.
Proof. vm_compute. repeat split; reflexivity. Qed.

End FetchFacts.

(** ** Scanning: extraction and the reference index *)

Module ScanFacts.
Import Py Re Env Samples PyFacts DictFacts Images.

Lemma record_images_keys images rel_path all_images :
  keys (record_images images rel_path all_images)
  = add_new (keys all_images) images.
Proof.
  revert all_images. induction images as [|u images IH]; intros d; simpl.
  - reflexivity.
  - rewrite IH. f_equal. rewrite keys_dict_set.
    rewrite <- (dict_mem_keys d u).
    destruct (dict_mem d u) eqn:E.
    + now rewrite E.
    + rewrite keys_dict_set, E.
      unfold dict_mem. rewrite dict_get_set, str_eqb_refl. reflexivity.
Qed.

Lemma record_images_get images rel_path all_images url :
  NoDup images ->
  dict_get (record_images images rel_path all_images) url
  = if mem url images
    then Some (match dict_get all_images url with
               | Some l => l
               | None => []
               end ++ [rel_path])
    else dict_get all_images url.
Proof.
  revert all_images. induction images as [|u images IH]; intros d ND; simpl.
  - reflexivity.
  - inversion ND as [|? ? Hu ND']; subst.
    rewrite (IH _ ND'). rewrite dict_get_set.
    rewrite (str_eqb_sym url u).
    destruct (str_eqb u url) eqn:E; simpl.
    + apply str_eqb_eq in E. subst url.
      apply mem_false in Hu. rewrite Hu.
      destruct (dict_mem d u) eqn:M; [reflexivity|].
      rewrite dict_get_set, str_eqb_refl.
      unfold dict_mem in M. destruct (dict_get d u); [discriminate|reflexivity].
    + assert (G : dict_get (if dict_mem d u then d else dict_set d u []) url
                  = dict_get d url).
      { destruct (dict_mem d u); [reflexivity|].
        now rewrite dict_get_set, E. }
      rewrite G. reflexivity.
Qed.

Section Scan.
Context {O : SetOrder}.
Variable f : fs.

Lemma extract_image_links_NoDup html : NoDup (extract_image_links html).
Proof. apply set_list_NoDup. Qed.

Lemma extract_of_NoDup file_path : NoDup (extract_of f file_path).
Proof.
  unfold extract_of. destruct (f file_path).
  - apply extract_image_links_NoDup.
  - constructor.
Qed.

(** One step of the scan, whatever the file holds. *)
Lemma scan_files_step file_path rest all_images file_images :
  scan_files f (file_path :: rest) all_images file_images
  = scan_files f rest
      (record_images (extract_of f file_path) file_path all_images)
      (match extract_of f file_path with
       | [] => file_images
       | images => dict_set file_images file_path images
       end).
Proof.
  simpl. unfold extract_of. destruct (f file_path) as [content|]; simpl.
  - destruct (extract_image_links content); reflexivity.
  - reflexivity.
Qed.

Lemma scan_files_keys paths all_images file_images :
  keys (fst (scan_files f paths all_images file_images))
  = add_new (keys all_images) (flat_map (extract_of f) paths).
Proof.
  revert all_images file_images.
  induction paths as [|p paths IH]; intros a fi.
  - reflexivity.
  - rewrite scan_files_step, IH, record_images_keys.
    simpl flat_map. now rewrite add_new_app.
Qed.

Lemma merge_step old p (b : bool) l :
  merge (if b then Some (match old with Some x => x | None => [] end ++ [p])
         else old) l
  = merge old (if b then p :: l else l).
Proof.
  destruct b; [|reflexivity].
  destruct l; simpl; [reflexivity|]. now rewrite <- app_assoc.
Qed.

Lemma scan_files_get paths all_images file_images url :
  dict_get (fst (scan_files f paths all_images file_images)) url
  = merge (dict_get all_images url) (documents_with f paths url).
Proof.
  revert all_images file_images.
  induction paths as [|p paths IH]; intros a fi.
  - reflexivity.
  - rewrite scan_files_step, IH.
    rewrite (record_images_get _ _ _ (extract_of_NoDup p)).
    rewrite merge_step. unfold documents_with. simpl filter.
    destruct (mem url (extract_of f p)); reflexivity.
Qed.

End Scan.



End ScanFacts.

(** ** What a match must contain *)

Module ReFacts.
Import Py Re.

Lemma all_chars_complete (c : ascii) : In c all_chars.
Proof.
  unfold all_chars. rewrite <- (ascii_nat_embedding c).
  apply in_map, in_seq. pose proof (nat_ascii_bounded c). lia.
Qed.

Lemma count_app P (a b : str) : count P (a ++ b) = count P a + count P b.
Proof. unfold count. now rewrite filter_app, length_app. Qed.

Lemma atom_needs_sound ic P a c :
  atom_match ic a c = true -> atom_needs ic P a <= count P [c].
Proof.
  intros M. unfold atom_needs. destruct (atom_within ic P a) eqn:W; [|lia].
  unfold atom_within in W. rewrite forallb_forall in W.
  specialize (W c (all_chars_complete c)). rewrite M in W. simpl in W.
  unfold count. simpl. now rewrite W.
Qed.

Section Consumed.
Variable R : Type.

Lemma star_k_consumes (p : ascii -> bool) (s : str) (k : str -> option R) x :
  star_k p s k = Some x ->
  exists pre s', s = pre ++ s' /\ k s' = Some x.
Proof.
  induction s as [|c s IH]; simpl; intros H.
  - exists [], []. auto.
  - destruct (p c).
    + destruct (star_k p s k) eqn:E.
      * injection H as ->. destruct (IH eq_refl) as (pre & s' & -> & K).
        exists (c :: pre), s'. auto.
      * exists [], (c :: s). auto.
    + exists [], (c :: s). auto.
Qed.

(** Every successful run hands its continuation a suffix of the input,
    and the part it consumed holds what the pattern needs. *)
Lemma run_consumes ic P (r : re) :
  forall (s : str) g (k : str -> option str -> option R) x,
    run ic r s g k = Some x ->
    exists pre s' g',
      s = pre ++ s' /\ needs ic P r <= count P pre /\ k s' g' = Some x.
Proof.
  induction r as [|a|a|a|r IH|r1 IH1 r2 IH2|r1 IH1 r2 IH2|r IH];
    intros s g k x H; simpl in H |- *.
  - exists [], s, g. repeat split; auto.
  - destruct s as [|c s]; [discriminate|].
    destruct (atom_match ic a c) eqn:M; [|discriminate].
    exists [c], s, g. repeat split; auto. now apply atom_needs_sound.
  - apply star_k_consumes in H as (pre & s' & -> & K).
    exists pre, s', g. repeat split; auto. lia.
  - destruct s as [|c s]; [discriminate|].
    destruct (atom_match ic a c) eqn:M; [|discriminate].
    apply star_k_consumes in H as (pre & s' & -> & K).
    exists (c :: pre), s', g. repeat split; auto.
    change (c :: pre) with ([c] ++ pre). rewrite count_app.
    pose proof (atom_needs_sound ic P a c M). lia.
  - destruct (run ic r s g k) eqn:E.
    + injection H as ->. destruct (IH _ _ _ _ E) as (pre & s' & g' & -> & _ & K).
      exists pre, s', g'. repeat split; auto. lia.
    + exists [], s, g. repeat split; auto.
  - destruct (IH1 _ _ _ _ H) as (pre1 & s1 & g1 & -> & N1 & K1).
    destruct (IH2 _ _ _ _ K1) as (pre2 & s2 & g2 & -> & N2 & K2).
    exists (pre1 ++ pre2), s2, g2. repeat split.
    + now rewrite app_assoc.
    + rewrite count_app. lia.
    + assumption.
  - destruct (run ic r1 s g k) eqn:E.
    + injection H as ->.
      destruct (IH1 _ _ _ _ E) as (pre & s' & g' & -> & N & K).
      exists pre, s', g'. repeat split; auto. lia.
    + destruct (IH2 _ _ _ _ H) as (pre & s' & g' & -> & N & K).
      exists pre, s', g'. repeat split; auto. lia.
  - destruct (IH _ _ _ _ H) as (pre & s' & g' & E & N & K).
    exists pre, s'. eexists. repeat split; eauto.
Qed.

End Consumed.

Lemma match_at_needs ic P r s :
  count P s < needs ic P r -> match_at ic r s = None.
Proof.
  intros L. destruct (match_at ic r s) as [x|] eqn:E; [|reflexivity].
  unfold match_at in E.
  apply run_consumes with (P := P) in E as (pre & s' & g' & -> & N & _).
  rewrite count_app in L. lia.
Qed.

Lemma scan_needs ic P r s skip :
  count P s < needs ic P r -> scan ic r s skip = [].
Proof.
  revert skip. induction s as [|c s IH]; intros skip L.
  - destruct skip; simpl; [|reflexivity].
    now rewrite (match_at_needs ic P r [] L).
  - assert (L' : count P s < needs ic P r).
    { change (c :: s) with ([c] ++ s) in L. rewrite count_app in L. lia. }
    destruct skip; simpl.
    + rewrite (match_at_needs ic P r (c :: s) L). now apply IH.
    + now apply IH.
Qed.

Lemma findall_needs ic P r s :
  count P s < needs ic P r -> findall ic r s = [].
Proof. intros L. unfold findall. now rewrite (scan_needs ic P r s 0 L). Qed.

End ReFacts.

(** ** Extraction from malformed markup *)

Module ExtractFacts.
Import Py Re Env Samples ReFacts Images.

Lemma set_list_nil {O : SetOrder} : set_list [] = [].
Proof.
  destruct (set_list []) as [|x l] eqn:E; [reflexivity|].
  exfalso. apply (proj1 (set_list_In [] x)). rewrite E. now left.
Qed.

Lemma count_none (P Q : ascii -> bool) (s : str) :
  (forall c, P c = true -> Q c = true) ->
  existsb Q s = false -> count P s = 0.
Proof.
  intros PQ. unfold count. induction s as [|c s IH]; simpl; intros H.
  - reflexivity.
  - apply orb_false_iff in H as [Hc Hs].
    destruct (P c) eqn:E.
    + apply PQ in E. congruence.
    + now apply IH.
Qed.

Lemma is_quote_closes c : is_quote c = true -> closes c = true.
Proof. unfold closes. now intros ->. Qed.

Lemma is_close_paren_closes c : is_close_paren c = true -> closes c = true.
Proof. unfold closes. intros ->. apply orb_true_r. Qed.

(** Each pattern asks for two quotes or for a closing parenthesis. *)
Lemma patterns_need :
  needs true is_quote pat_img = 2
  /\ needs true is_quote pat_source = 2
  /\ needs true is_close_paren pat_background = 1
  /\ needs true is_quote pat_link = 2.
Proof. vm_compute. repeat split; reflexivity. Qed.

(** A document with fewer than two quotes and no closing parenthesis
    offers nothing to any of the four patterns. *)
Lemma image_data_nothing (html : str) :
  count is_quote html < 2 -> count is_close_paren html < 1 ->
  image_data html = [].
Proof.
  intros Q C. destruct patterns_need as (N1 & N2 & N3 & N4).
  unfold image_data, patterns. simpl.
  rewrite (findall_needs true is_quote pat_img html) by (rewrite N1; exact Q).
  rewrite (findall_needs true is_quote pat_source html) by (rewrite N2; exact Q).
  rewrite (findall_needs true is_close_paren pat_background html)
    by (rewrite N3; exact C).
  rewrite (findall_needs true is_quote pat_link html) by (rewrite N4; exact Q).
  reflexivity.
Qed.

(** C7.  Extraction is a total function of the text: no step of it can
    raise, whatever the markup.  An [img] tag whose [src] value is opened
    and never closed (no quote and no closing parenthesis follows) yields
    no reference at all; the truncated [<img src=\x22https://] is the
    instance the witness evaluates. *)
Theorem C7_unclosed_src_extracts_nothing (O : SetOrder) (rest : str) :
  existsb closes rest = false ->
  extract_image_links (lit "<img src=" ++ [dq] ++ rest) = [].
Proof.
  intros H. unfold extract_image_links.
  rewrite image_data_nothing.
  - apply set_list_nil.
  - rewrite !count_app, (count_none is_quote closes rest is_quote_closes H).
    vm_compute. lia.
  - rewrite !count_app,
      (count_none is_close_paren closes rest is_close_paren_closes H).
    vm_compute. lia.
Qed.

Lemma C7_unclosed_src_extracts_nothing_witness :
  existsb closes (lit "https://") = false
  /\ extract_image_links (O := stdlib_order) truncated_doc = [].
Proof.
  split; [reflexivity|].
  apply (C7_unclosed_src_extracts_nothing stdlib_order (lit "https://")).
  reflexivity.
Defined.

End ExtractFacts.

(** ** The fetch loop of download_images.py *)

Module BatchFacts.
Import Py Re Env Samples PyFacts DictFacts Images ScanFacts.

Lemma download_image_result h url out w :
  fst (download_image h url out w) = negb (fails (http_get h (requests w) url)).
Proof.
  unfold download_image, fails.
  destruct (http_get h (requests w) url) as [status content|]; simpl.
  - destruct (raises_for_status status); reflexivity.
  - reflexivity.
Qed.

Lemma In_dict_set {V} (d : dict V) k v k' v' :
  In (k', v') (dict_set d k v) -> (k' = k /\ v' = v) \/ In (k', v') d.
Proof.
  induction d as [|[k0 v0] d IH]; simpl.
  - intros [E|[]]. injection E as <- <-. now left.
  - destruct (str_eqb k0 k) eqn:E; simpl.
    + apply str_eqb_eq in E. subst k0.
      intros [X|X]; [injection X as <- <-; now left|right; now right].
    + intros [X|X]; [right; now left|].
      destruct (IH X) as [Y|Y]; [now left|right; now right].
Qed.

Lemma In_keys_dict_set {V} (d : dict V) k v k' :
  In k' (keys (dict_set d k v)) <-> In k' (keys d) \/ k' = k.
Proof.
  rewrite keys_dict_set. destruct (dict_mem d k) eqn:E.
  - rewrite dict_mem_keys in E. apply mem_In in E.
    split; [tauto|]. intros [H| ->]; assumption.
  - rewrite in_app_iff. simpl. intuition congruence.
Qed.

Section Batch.
Context {O : SetOrder}.
Variable h : Host.
Variable f : fs.

Lemma scan_files_invariant paths all_images file_images :
  Forall (fun p => p <> []) paths ->
  faithful f file_images -> backed f all_images file_images ->
  faithful f (snd (scan_files f paths all_images file_images))
  /\ backed f (fst (scan_files f paths all_images file_images))
       (snd (scan_files f paths all_images file_images)).
Proof.
  intros NE. revert all_images file_images.
  induction NE as [|p paths Hp NE IH]; intros a fi F B.
  - split; assumption.
  - rewrite scan_files_step. apply IH.
    + destruct (extract_of f p) as [|u l] eqn:E; [assumption|].
      intros q images I. apply In_dict_set in I as [[-> ->]|I].
      * split; [assumption|now symmetry].
      * now apply F.
    + intros url I. rewrite record_images_keys in I.
      apply add_new_In in I as [I|I].
      * destruct (B url I) as (q & Q & M). exists q. split; [|assumption].
        destruct (extract_of f p); [assumption|].
        apply In_keys_dict_set. now left.
      * exists p. split; [|now apply mem_In].
        destruct (extract_of f p) as [|u l] eqn:E; [destruct I|].
        apply In_keys_dict_set. now right.
Qed.

Lemma first_file_found file_images url p :
  faithful f file_images ->
  In p (keys file_images) -> mem url (extract_of f p) = true ->
  truthy (first_file file_images url) = true.
Proof.
  induction file_images as [|[q images] fi IH]; intros F I M; [destruct I|].
  simpl. destruct (F q images (or_introl eq_refl)) as [Q E].
  destruct (mem url images) eqn:X.
  - simpl. destruct q; [congruence|reflexivity].
  - apply IH.
    + intros q' images' I'. apply F. now right.
    + destruct I as [I|I]; [|assumption].
      simpl in I. subst q. rewrite E in X. congruence.
    + assumption.
Qed.

(** One round of the loop on a reference that has a first file. *)
Lemma download_all_step file_images url files0 rest idx st :
  truthy (first_file file_images url) = true ->
  exists st1,
    download_all h file_images ((url, files0) :: rest) idx st
    = download_all h file_images rest (S idx) st1
    /\ requests (after st1) = requests (after st) ++ [url]
    /\ image_mapping st1
       = (if fails (http_get h (requests (after st)) url)
          then image_mapping st
          else dict_set (image_mapping st) url (image_filename h idx url))
    /\ downloaded st1
       = (if fails (http_get h (requests (after st)) url)
          then downloaded st else S (downloaded st)).
Proof.
  intros T. simpl. rewrite T.
  set (out := image_output_path h _ _).
  pose proof (download_image_result h url out (after st)) as R.
  pose proof (FetchFacts.download_image_requests h url out (after st)) as Q.
  destruct (download_image h url out (after st)) as [ok w'].
  simpl in R, Q. subst ok.
  destruct (fails (http_get h (requests (after st)) url)); simpl;
    eexists; (split; [reflexivity|]); simpl; auto.
Qed.


Lemma download_all_other file_images items idx st url :
  (forall u, In u (keys items) ->
     truthy (first_file file_images u) = true) ->
  ~ In url (keys items) ->
  dict_get (image_mapping (download_all h file_images items idx st)) url
  = dict_get (image_mapping st) url.
Proof.
  revert idx st. induction items as [|[u files0] rest IH]; intros idx st T N.
  - reflexivity.
  - destruct (download_all_step file_images u files0 rest idx st)
      as (st1 & -> & _ & M & _).
    { apply T. now left. }
    rewrite IH.
    + rewrite M. destruct (fails _); [reflexivity|].
      rewrite dict_get_set.
      destruct (str_eqb u url) eqn:E; [|reflexivity].
      apply str_eqb_eq in E. subst u. exfalso. apply N. now left.
    + intros u' I. apply T. now right.
    + intros I. apply N. now right.
Qed.

Lemma download_all_result file_images items idx st i url :
  (forall u, In u (keys items) ->
     truthy (first_file file_images u) = true) ->
  NoDup (keys items) ->
  nth_error (keys items) i = Some url ->
  dict_get (image_mapping (download_all h file_images items idx st)) url
  = if fails (http_get h (requests (after st) ++ firstn i (keys items)) url)
    then dict_get (image_mapping st) url
    else Some (image_filename h (idx + i) url).
Proof.
  revert idx st i. induction items as [|[u files0] rest IH];
    intros idx st i T ND Hn.
  - destruct i; discriminate.
  - simpl in ND. inversion ND as [|? ? Nu ND']; subst.
    destruct (download_all_step file_images u files0 rest idx st)
      as (st1 & -> & Q & M & _).
    { apply T. now left. }
    assert (T' : forall u', In u' (keys rest) ->
                   truthy (first_file file_images u') = true).
    { intros u' I. apply T. now right. }
    destruct i as [|i]; simpl in Hn.
    + injection Hn as ->. simpl. rewrite app_nil_r, Nat.add_0_r.
      rewrite (@download_all_other file_images rest (S idx) st1 url T' Nu), M.
      destruct (fails _); [reflexivity|].
      now rewrite dict_get_set, str_eqb_refl.
    + rewrite (IH (S idx) st1 i T' ND' Hn), Q, M.
      simpl firstn. rewrite <- app_assoc. simpl app.
      replace (S idx + i) with (idx + S i) by lia.
      assert (U : dict_get (if fails (http_get h (requests (after st)) u)
                            then image_mapping st
                            else dict_set (image_mapping st) u
                                   (image_filename h idx u)) url
                  = dict_get (image_mapping st) url).
      { destruct (fails (http_get h (requests (after st)) u)); [reflexivity|].
        rewrite dict_get_set.
        destruct (str_eqb u url) eqn:E; [|reflexivity].
        apply str_eqb_eq in E. subst u. exfalso. apply Nu.
        eapply nth_error_In. exact Hn. }
      rewrite U. reflexivity.
Qed.



End Batch.




End BatchFacts.

(** ** The Drive fetchers, document by document *)

Module DriveFacts.
Import Py Re Env Samples PyFacts Gdown.

Lemma subseq_refl {A} (l : list A) : subseq l l.
Proof. induction l; constructor; assumption. Qed.








Section OneDocument.
Variable h : Host.
Variable keep : str.

(** The downloader leaves the file [keep] alone unless told to store
    there. *)
Hypothesis downloader_frame :
  forall log url out f0,
    out <> keep -> outcome_files (downloader h log url out f0) keep = f0 keep.

(** One fetch: at most the planned call, and [keep] as it was. *)
Lemma download_video_effect file_id dest n w :
  path_join h dest (Drive.video_file n) <> keep ->
  let r := download_video h file_id dest n w in
  (downloads (snd r) = downloads w
   \/ downloads (snd r)
      = downloads w
        ++ [(gdown_url file_id, path_join h dest (Drive.video_file n))])
  /\ files (snd r) keep = files w keep.
Proof.
  intros NK. unfold download_video.
  destruct (exists_ (files w) _); simpl; [auto|].
  pose proof (downloader_frame (downloads w) (gdown_url file_id)
                (files w) NK) as Fr.
  destruct (downloader h _ _ _ _) as [f0|f0]; simpl in Fr |- *.
  - destruct (exists_ f0 _) eqn:X; simpl.
    + destruct (Nat.ltb 0 _); simpl; split; auto.
      unfold remove. apply str_eqb_neq in NK.
      rewrite str_eqb_sym in NK. now rewrite NK.
    + split; auto.
  - split; auto.
Qed.

Lemma download_ids_effect dest ids i n w :
  (forall j, path_join h dest (Drive.video_file j) <> keep) ->
  let r := download_ids h dest ids i n w in
  (exists new, downloads (snd r) = downloads w ++ new
               /\ subseq new (plan h dest ids i))
  /\ fst r <= n + List.length ids
  /\ files (snd r) keep = files w keep.
Proof.
  intros NK. revert i n w. induction ids as [|a ids IH]; intros i n w; simpl.
  - repeat split; [|lia]. exists []. split; [now rewrite app_nil_r|constructor].
  - destruct (download_video_effect a dest i w (NK i)) as [D F].
    destruct (download_video h a dest i w) as [ok w1]. simpl in D, F.
    destruct (IH (S i) (if ok then S n else n) w1) as ((new & E & S) & L & F').
    repeat split.
    + destruct D as [D|D]; rewrite E, D.
      * exists new. split; [reflexivity|now constructor].
      * eexists. rewrite <- app_assoc. split; [reflexivity|].
        simpl. now constructor.
    + destruct ok; lia.
    + congruence.
Qed.

End OneDocument.




End DriveFacts.

(** ** Substrings under insertion and replacement *)

Module SubstringFacts.
Import Py PyFacts.

Lemma ascii_eqb_eq a b : ascii_eqb a b = true <-> a = b.
Proof. apply Ascii.eqb_eq. Qed.

Lemma startswith_cons a m c s :
  startswith (a :: m) (c :: s) = true <-> a = c /\ startswith m s = true.
Proof. simpl. rewrite andb_true_iff, ascii_eqb_eq. reflexivity. Qed.

Lemma startswith_app p a b :
  startswith p a = true -> startswith p (a ++ b) = true.
Proof.
  revert a. induction p as [|x p IH]; intros [|y a]; simpl; try congruence.
  rewrite !andb_true_iff. intros [E H]. auto.
Qed.

Lemma startswith_firstn p n s :
  startswith p (firstn n s) = true -> startswith p s = true.
Proof.
  intros H. rewrite <- (firstn_skipn n s). now apply startswith_app.
Qed.

Lemma contains_cons p c s :
  contains p s = true -> contains p (c :: s) = true.
Proof. intros H. simpl. rewrite H. apply orb_true_r. Qed.

Lemma contains_app_r p a b :
  contains p b = true -> contains p (a ++ b) = true.
Proof.
  intros H. induction a as [|c a IH]; [assumption|].
  simpl app. now apply contains_cons.
Qed.

Lemma contains_start p s : startswith p s = true -> contains p s = true.
Proof. intros H. destruct s; simpl; now rewrite H. Qed.

Lemma contains_app_l p a b :
  contains p a = true -> contains p (a ++ b) = true.
Proof.
  induction a as [|c a IH]; intros H.
  - simpl in H. rewrite orb_false_r in H.
    destruct p; [|discriminate]. destruct b; reflexivity.
  - simpl in H. apply orb_true_iff in H as [H|H].
    + apply contains_start. now apply (startswith_app p (c :: a)).
    + simpl app. apply contains_cons. now apply IH.
Qed.

(** A prefix survives an insertion made at a character it does not hold. *)
Lemma startswith_keep_insert m :
  forall s n x rest t,
    startswith m s = true -> skipn n s = x :: rest ->
    mem_char x m = false ->
    startswith m (firstn n s ++ t) = true.
Proof.
  induction m as [|a m IH]; intros s n x rest t H K N; [reflexivity|].
  destruct s as [|b s]; [discriminate|].
  apply startswith_cons in H as [-> H].
  simpl in N. apply orb_false_iff in N as [Nx Nm].
  destruct n as [|n]; simpl in K.
  - injection K as -> _. unfold ascii_eqb in Nx.
    rewrite Ascii.eqb_refl in Nx. discriminate.
  - simpl. apply andb_true_iff. split; [apply Ascii.eqb_refl|].
    eapply IH; eassumption.
Qed.

Lemma contains_keep_insert m s :
  forall n x rest t,
    contains m s = true -> skipn n s = x :: rest ->
    mem_char x m = false ->
    contains m (firstn n s ++ t ++ skipn n s) = true.
Proof.
  induction s as [|c s IH]; intros n x rest t H K N.
  - destruct n; discriminate.
  - destruct n as [|n].
    + simpl firstn. simpl skipn. now apply contains_app_r, contains_app_r.
    + simpl in H. apply orb_true_iff in H as [H|H].
      * apply contains_start.
        eapply (startswith_keep_insert m (c :: s) (S n)); eassumption.
      * simpl firstn. simpl skipn. simpl app. apply contains_cons.
        simpl in K. eapply IH; eassumption.
Qed.

Lemma disjoint_cons o old m :
  disjoint (o :: old) m = true <-> mem_char o m = false /\ disjoint old m = true.
Proof.
  unfold disjoint. simpl. rewrite andb_true_iff, negb_true_iff. reflexivity.
Qed.

Lemma mem_char_head a m : mem_char a (a :: m) = true.
Proof. unfold mem_char. simpl. unfold ascii_eqb. now rewrite Ascii.eqb_refl. Qed.

Lemma mem_char_tail c a m : mem_char c (a :: m) = false -> mem_char c m = false.
Proof. unfold mem_char. simpl. intros H. now apply orb_false_iff in H. Qed.

Lemma disjoint_tail old a m :
  disjoint old (a :: m) = true -> disjoint old m = true.
Proof.
  unfold disjoint. rewrite !forallb_forall. intros H c I.
  specialize (H c I). apply negb_true_iff in H. apply negb_true_iff.
  now apply mem_char_tail in H.
Qed.

(** A text that shares no character with [old] cannot begin where [old]
    begins. *)
Lemma startswith_clash o old a m s :
  disjoint (o :: old) (a :: m) = true ->
  startswith (o :: old) s = true -> startswith (a :: m) s = true -> False.
Proof.
  intros D. apply disjoint_cons in D as [N _].
  destruct s as [|c s]; [discriminate|].
  rewrite !startswith_cons. intros [-> _] [-> _].
  rewrite mem_char_head in N. discriminate.
Qed.

Lemma startswith_keep_replace o old new m :
  forall s,
    disjoint (o :: old) m = true ->
    startswith m s = true ->
    startswith m (replace_first (o :: old) new s) = true.
Proof.
  induction m as [|a m IH]; intros s D H; [reflexivity|].
  destruct s as [|b s]; [discriminate|].
  cbn [replace_first].
  destruct (startswith (o :: old) (b :: s)) eqn:E.
  - exfalso. eapply startswith_clash; eassumption.
  - apply startswith_cons in H as [-> H].
    apply startswith_cons. split; [reflexivity|].
    apply IH; [|assumption]. eapply disjoint_tail; eassumption.
Qed.

Lemma contains_skip_old a m :
  forall old s,
    disjoint old (a :: m) = true ->
    startswith old s = true ->
    contains (a :: m) s = true ->
    contains (a :: m) (skipn (List.length old) s) = true.
Proof.
  induction old as [|o old IH]; intros s D S H; [assumption|].
  destruct s as [|c s]; [discriminate|].
  simpl skipn. pose proof S as S'.
  apply startswith_cons in S as [-> S].
  cbn [contains] in H. apply orb_true_iff in H as [H|H].
  - exfalso. eapply startswith_clash; eassumption.
  - apply IH; [|assumption|assumption].
    now apply disjoint_cons in D.
Qed.

Lemma contains_keep_replace o old new a m :
  forall s,
    disjoint (o :: old) (a :: m) = true ->
    contains (a :: m) s = true ->
    contains (a :: m) (replace_first (o :: old) new s) = true.
Proof.
  induction s as [|c s IH]; intros D H.
  - simpl in H. discriminate.
  - cbn [replace_first].
    destruct (startswith (o :: old) (c :: s)) eqn:E.
    + apply contains_app_r. now apply contains_skip_old.
    + cbn [contains] in H. apply orb_true_iff in H as [H|H].
      * apply contains_start.
        pose proof (startswith_keep_replace o old new (a :: m) (c :: s) D H) as K.
        cbn [replace_first] in K. now rewrite E in K.
      * apply contains_cons. now apply IH.
Qed.

Lemma find_at_Some p s :
  forall i n, find_at p s i = Some n ->
    i <= n /\ startswith p (skipn (n - i) s) = true.
Proof.
  induction s as [|c s IH]; intros i n H; cbn [find_at] in H.
  - destruct (startswith p []) eqn:E; [|discriminate].
    injection H as <-. rewrite Nat.sub_diag. auto.
  - destruct (startswith p (c :: s)) eqn:E.
    + injection H as <-. rewrite Nat.sub_diag. auto.
    + apply IH in H as [L H]. split; [lia|].
      replace (n - i) with (S (n - S i)) by lia. exact H.
Qed.

Lemma find_Some p s start n :
  find p s start = Some n -> startswith p (skipn n s) = true.
Proof.
  unfold find. destruct (Nat.leb start (List.length s)); [|discriminate].
  intros H. apply find_at_Some in H as [L H].
  rewrite skipn_skipn in H. now replace (n - start + start) with n in H by lia.
Qed.

End SubstringFacts.

(** ** The redirect-blocker injector *)

Module InjectorFacts.
Import Py Re Env Samples PyFacts SubstringFacts FixHtml.

(** A single substitution leaves the text alone or puts one replacement
    somewhere into it. *)
Lemma sub_once_shape ic r f s :
  sub_count ic r f s 1 = s
  \/ exists pre x post, sub_count ic r f s 1 = pre ++ f x ++ post.
Proof.
  unfold sub_count. induction s as [|c s IH]; cbn [sub_from].
  - destruct (match_at ic r []) as [[len g]|].
    + right. exists [], (firstn len []). eexists. reflexivity.
    + now left.
  - destruct (match_at ic r (c :: s)) as [[len g]|].
    + right. exists [], (firstn len (c :: s)). eexists. reflexivity.
    + destruct IH as [E|(pre & x & post & E)].
      * left. now rewrite E.
      * right. exists (c :: pre), x, post. now rewrite E.
Qed.

Lemma blocker_has_marker : contains marker REDIRECT_BLOCKER = true.
Proof. vm_compute. reflexivity. Qed.

Lemma replacement_has_marker m0 : contains marker (replacement m0) = true.
Proof.
  unfold replacement. do 2 apply contains_app_r. apply blocker_has_marker.
Qed.

Lemma injected_has_marker content :
  let new_content :=
    sub_count false (Grp (Str (lit "<head>"))) replacement content 1 in
  str_eqb new_content content = false ->
  contains marker new_content = true.
Proof.
  intros new_content NE. subst new_content.
  destruct (sub_once_shape false (Grp (Str (lit "<head>"))) replacement content)
    as [E|(pre & x & post & E)].
  - rewrite E, str_eqb_refl in NE. discriminate.
  - rewrite E. apply contains_app_r, contains_app_l, replacement_has_marker.
Qed.

Lemma disable_scripts_keeps_marker new_content head_end :
  contains marker new_content = true ->
  contains marker (disable_scripts new_content head_end) = true.
Proof.
  intros H. unfold disable_scripts.
  destruct (rfind _ _) as [last_style_end|]; [|assumption].
  destruct (find _ _ _) as [next_script|] eqn:F; [|assumption].
  destruct (Nat.ltb next_script head_end); [|assumption].
  apply find_Some in F. rewrite skipn_firstn_comm in F.
  apply startswith_firstn in F.
  destruct (skipn next_script new_content) as [|x rest] eqn:K;
    [discriminate|].
  change (lit "<script") with ("<"%char :: lit "script") in F.
  apply startswith_cons in F as [<- _].
  change (lit "</head>") with ("<"%char :: lit "/head>").
  change marker with ("R"%char :: lit "EDIRECT BLOCKER ACTIVE") in *.
  apply contains_keep_replace; [reflexivity|].
  rewrite <- K. eapply contains_keep_insert; [assumption|exact K|reflexivity].
Qed.

(** A second run on the files the first run leaves is a skip. *)
Lemma process_twice (f : fs) (filepath : str) :
  process_html_file (snd (process_html_file f filepath)) filepath
  = (false, snd (process_html_file f filepath)).
Proof.
  unfold process_html_file at 2 3.
  destruct (f filepath) as [content|] eqn:C.
  - destruct (contains marker content) eqn:M.
    + simpl. unfold process_html_file. now rewrite C, M.
    + destruct (str_eqb _ content) eqn:E.
      * simpl. unfold process_html_file. now rewrite C, M, E.
      * destruct (find _ _ 0) as [head_end|] eqn:F.
        -- simpl. unfold process_html_file at 1. unfold write at 1.
           rewrite str_eqb_refl.
           rewrite disable_scripts_keeps_marker; [reflexivity|].
           now apply injected_has_marker.
        -- simpl. unfold process_html_file. now rewrite C, M, E, F.
  - simpl. unfold process_html_file. now rewrite C.
Qed.

(** C10.  A file whose content holds the marker is left as it is and
    reported as skipped (the result False, which [main] counts under
    skipped).  Every file the injector rewrites holds the marker, so a
    second run on any file changes nothing more: twice is once. *)
Theorem C10_injector_idempotent (f : fs) (filepath content : str) :
  f filepath = Some content ->
  contains marker content = true ->
  process_html_file f filepath = (false, f)
  /\ (forall (f' : fs) (filepath' : str),
        process_html_file (snd (process_html_file f' filepath')) filepath'
        = (false, snd (process_html_file f' filepath'))).
Proof.
  intros C M. split.
  - unfold process_html_file. now rewrite C, M.
  - intros f' filepath'. apply process_twice.
Qed.

Lemma C10_injector_idempotent_witness :
  fst (process_html_file site (lit "index.html")) = true
  /\ contains marker page = false
  /\ process_html_file site_done (lit "index.html") = (false, site_done).
Proof.
  split; [vm_compute; reflexivity|]. split; [vm_compute; reflexivity|].
  refine (proj1 (@C10_injector_idempotent site_done (lit "index.html")
                   (match site_done (lit "index.html") with
                    | Some c => c
                    | None => []
                    end) _ _)).
  - vm_compute. reflexivity.
  - vm_compute. reflexivity.
Defined.

End InjectorFacts.

(** * Further properties of the scripts *)

(** ** File names *)

Module NamingFacts.
Import Py Env PyFacts.

Lemma lit_inj (a b : string) : lit a = lit b -> a = b.
Proof.
  intros H. rewrite <- (string_of_list_ascii_of_string a).
  rewrite <- (string_of_list_ascii_of_string b). unfold lit in H. now rewrite H.
Qed.

Lemma string_of_uint_inj (a b : Decimal.uint) :
  NilEmpty.string_of_uint a = NilEmpty.string_of_uint b -> a = b.
Proof.
  intros H. pose proof (NilEmpty.usu a) as A. pose proof (NilEmpty.usu b) as B.
  rewrite H in A. congruence.
Qed.

Lemma str_of_nat_inj (i j : nat) : str_of_nat i = str_of_nat j -> i = j.
Proof.
  intros H. apply lit_inj, string_of_uint_inj in H.
  rewrite <- (DecimalNat.Unsigned.of_to i), <- (DecimalNat.Unsigned.of_to j).
  now rewrite H.
Qed.

Lemma string_of_uint_digits (d : Decimal.uint) :
  forallb is_digit (lit (NilEmpty.string_of_uint d)) = true.
Proof. induction d; simpl; auto. Qed.

Lemma str_of_nat_digits (n : nat) : forallb is_digit (str_of_nat n) = true.
Proof. apply string_of_uint_digits. Qed.

(** A run of digits is told from what follows it when that does not begin
    with a digit. *)
Lemma digits_then (a b : str) (x y : ascii) (r1 r2 : str) :
  forallb is_digit a = true -> forallb is_digit b = true ->
  is_digit x = false -> is_digit y = false ->
  a ++ x :: r1 = b ++ y :: r2 -> a = b.
Proof.
  revert b. induction a as [|c a IH]; intros [|d b] A B X Y E; simpl in *.
  - reflexivity.
  - injection E as -> _. apply andb_true_iff in B as [B _]. congruence.
  - injection E as -> _. apply andb_true_iff in A as [A _]. congruence.
  - injection E as -> E. apply andb_true_iff in A as [_ A].
    apply andb_true_iff in B as [_ B]. f_equal. eapply IH; eassumption.
Qed.

Lemma numbered_inj (pre : str) (i j : nat) (x y : ascii) (r1 r2 : str) :
  is_digit x = false -> is_digit y = false ->
  pre ++ str_of_nat i ++ x :: r1 = pre ++ str_of_nat j ++ y :: r2 -> i = j.
Proof.
  intros X Y E. apply app_inv_head in E. apply str_of_nat_inj.
  apply (digits_then (str_of_nat i) (str_of_nat j) x y r1 r2);
    auto using str_of_nat_digits.
Qed.

End NamingFacts.

(** ** download_images.py: extraction filter, file names, reference index *)

Module ImagesMore.
Import Py Re Env Samples PyFacts DictFacts SubstringFacts NamingFacts.
Import Images ScanFacts BatchFacts.

Lemma startswith_prefix (a b s : str) :
  startswith (a ++ b) s = true -> startswith a s = true.
Proof.
  revert s. induction a as [|x a IH]; intros s H; [reflexivity|].
  destruct s as [|y s]; [discriminate|].
  simpl in H. apply startswith_cons in H as [-> H].
  apply startswith_cons. auto.
Qed.

(** The first character of a candidate the loop skips at once. *)
Lemma skipped_head (c : ascii) (u : str) :
  (startswith (lit "data:") (c :: u) || startswith (lit "#") (c :: u)
   || blank (c :: u))%bool = true ->
  c = "d"%char \/ c = "#"%char \/ is_space c = true.
Proof.
  intros H. apply orb_true_iff in H as [H|H];
    [apply orb_true_iff in H as [H|H]|].
  - left. change (lit "data:") with ("d"%char :: lit "ata:") in H.
    now apply startswith_cons in H as [<- _].
  - right; left. change (lit "#") with ["#"%char] in H.
    now apply startswith_cons in H as [<- _].
  - right; right. simpl in H. now apply andb_true_iff in H as [H _].
Qed.

Lemma skipped_not (a c : ascii) (p u : str) :
  c = "d"%char \/ c = "#"%char \/ is_space c = true ->
  a <> "d"%char -> a <> "#"%char -> is_space a = false ->
  startswith (a :: p) (c :: u) = false.
Proof.
  intros H D S W. destruct (startswith (a :: p) (c :: u)) eqn:E; [|reflexivity].
  apply startswith_cons in E as [<- _].
  destruct H as [H|[H|H]]; congruence.
Qed.

Lemma kept_skipped (url : str) :
  (startswith (lit "data:") url || startswith (lit "#") url || blank url)%bool
  = true ->
  kept url = [].
Proof.
  destruct url as [|c u]; [reflexivity|]. intros H.
  apply skipped_head in H. unfold kept.
  change (lit "http://") with ("h"%char :: lit "ttp://").
  change (lit "https://") with ("h"%char :: lit "ttps://").
  change (lit "//") with ("/"%char :: lit "/").
  rewrite (@skipped_not "h"%char c (lit "ttp://") u H),
    (@skipped_not "h"%char c (lit "ttps://") u H),
    (@skipped_not "/"%char c (lit "/") u H);
    try reflexivity; discriminate.
Qed.

Lemma http_prefix (url : str) :
  (startswith (lit "http://") url || startswith (lit "https://") url)%bool
  = true ->
  startswith (lit "http") url = true.
Proof.
  intros H. apply orb_true_iff in H as [H|H].
  - now apply (startswith_prefix (lit "http") (lit "://")).
  - now apply (startswith_prefix (lit "http") (lit "s://")).
Qed.

(** The loop keeps a candidate by its prefix alone: the three tests it
    makes first and the test on sites.google.com never change the
    outcome. *)
Lemma external_images_kept (l : list str) :
  external_images l = flat_map kept l.
Proof.
  induction l as [|url l IH]; [reflexivity|].
  cbn [external_images flat_map].
  destruct (startswith (lit "data:") url || startswith (lit "#") url
            || blank url)%bool eqn:D.
  - now rewrite (kept_skipped url D).
  - unfold kept.
    destruct (startswith (lit "http://") url
              || startswith (lit "https://") url)%bool eqn:H.
    + rewrite (http_prefix url H), orb_true_r. simpl. now rewrite IH.
    + destruct (startswith (lit "//") url); simpl; now rewrite IH.
Qed.

Lemma kept_http (url x : str) :
  In x (kept url) ->
  (startswith (lit "http://") x || startswith (lit "https://") x)%bool = true.
Proof.
  unfold kept.
  destruct (startswith (lit "http://") url
            || startswith (lit "https://") url)%bool eqn:H.
  - intros [<-|[]]. exact H.
  - destruct (startswith (lit "//") url) eqn:S; [|intros []].
    intros [<-|[]]. apply orb_true_iff. right.
    change (lit "https://") with (lit "https:" ++ lit "//").
    clear H. revert S. generalize (lit "//"). generalize (lit "https:").
    intros a. induction a as [|c a IH]; intros b S; [exact S|].
    simpl. unfold ascii_eqb. rewrite Ascii.eqb_refl. now apply IH.
Qed.

(** X1.  What [extract_image_links] returns are absolute http or https
    URLs only.  The filter keeps a candidate by its prefix alone: one that
    begins with http:// or https:// is kept as it is, also when it names
    sites.google.com (the test written to skip those is always true), one
    that begins with // is kept behind https:, and nothing else is kept. *)
Theorem X1_extracted_references_are_http (O : SetOrder) (html : str) :
  (forall l, external_images l = flat_map kept l)
  /\ Forall
       (fun url =>
          (startswith (lit "http://") url
           || startswith (lit "https://") url)%bool = true)
       (extract_image_links html).
Proof.
  split; [exact external_images_kept|].
  apply Forall_forall. intros x I. unfold extract_image_links in I.
  apply (proj1 (set_list_In _ _)) in I. rewrite external_images_kept in I.
  apply in_flat_map in I as (url & _ & K). eapply kept_http; eassumption.
Qed.

Lemma extension_dot (ext : str) :
  In ext extensions -> exists r, ext = "."%char :: r.
Proof.
  unfold extensions. simpl. intros H.
  repeat (destruct H as [<-|H]; [eexists; reflexivity|]). destruct H.
Qed.

Lemma extension_known (h : Host) (url : str) :
  In (get_image_extension h url) extensions.
Proof.
  unfold get_image_extension.
  destruct (List.find _ extensions) as [ext|] eqn:F.
  - now apply find_some in F as [I _].
  - destruct (contains _ url || contains _ url)%bool;
      unfold extensions; simpl; auto.
Qed.

Lemma image_filename_inj (h : Host) (i j : nat) (u1 u2 : str) :
  image_filename h i u1 = image_filename h j u2 -> i = j.
Proof.
  unfold image_filename.
  destruct (extension_dot (extension_known h u1)) as [r1 ->].
  destruct (extension_dot (extension_known h u2)) as [r2 ->].
  apply numbered_inj; reflexivity.
Qed.

(** What the scan hands to the fetch loop. *)
Lemma fetch_setup (O : SetOrder) (f : fs) (paths : list str) :
  Forall (fun p => p <> []) paths ->
  (forall u, In u (keys (fst (scan_files f paths [] []))) ->
     truthy (first_file (snd (scan_files f paths [] [])) u) = true)
  /\ NoDup (keys (fst (scan_files f paths [] []))).
Proof.
  intros NE.
  destruct (scan_files_invariant (f := f) (all_images := [])
              (file_images := []) NE) as [F B].
  { intros p images []. }
  { intros url []. }
  split.
  - intros u I. destruct (B u I) as (p & P & M).
    eapply first_file_found; eassumption.
  - rewrite scan_files_keys. apply add_new_NoDup. constructor.
Qed.

(** Every entry of the mapping carries the number of its reference. *)
Lemma mapping_entry (h : Host) file_images items idx st url fn :
  (forall u, In u (keys items) ->
     truthy (first_file file_images u) = true) ->
  NoDup (keys items) ->
  image_mapping st = [] ->
  dict_get (image_mapping (download_all h file_images items idx st)) url
  = Some fn ->
  exists i, nth_error (keys items) i = Some url
            /\ fn = image_filename h (idx + i) url.
Proof.
  intros T ND E G.
  destruct (in_dec str_dec url (keys items)) as [I|N].
  - apply In_nth_error in I as [i Hi]. exists i. split; [assumption|].
    rewrite (@download_all_result h file_images items idx st i url T ND Hi)
      in G.
    rewrite E in G. destruct (fails _); [discriminate|congruence].
  - rewrite (@download_all_other h file_images items idx st url T N), E in G.
    discriminate.
Qed.

(** X2.  The file names a run assigns never collide.  Every entry of
    [image_mapping] is [image_<n><ext>] with n the position of the
    reference in the index, counted from 1, and [ext] one of the seven
    known extensions; two different references therefore never share a
    file name, whatever their extensions. *)
Theorem X2_image_file_names_distinct
  (O : SetOrder) (h : Host) (paths : list str) (w : world) :
  Forall (fun p => p <> []) paths ->
  let all_images := fst (fst (main_fetch h paths w)) in
  let st := snd (main_fetch h paths w) in
  (forall url fn,
     dict_get (image_mapping st) url = Some fn ->
     exists i,
       nth_error (keys all_images) i = Some url
       /\ fn = lit "image_" ++ str_of_nat (S i) ++ get_image_extension h url
       /\ In (get_image_extension h url) extensions)
  /\ (forall u1 u2 f1 f2,
        dict_get (image_mapping st) u1 = Some f1 ->
        dict_get (image_mapping st) u2 = Some f2 ->
        u1 <> u2 -> f1 <> f2).
Proof.
  intros NE. unfold main_fetch.
  destruct (fetch_setup O (files w) NE) as [T ND].
  destruct (scan_files (files w) paths [] []) as [all_images file_images].
  simpl in T, ND |- *.
  assert (Entry : forall url fn,
            dict_get (image_mapping
                        (download_all h file_images all_images 1
                           {| after := w; image_mapping := [];
                              downloaded := 0 |})) url = Some fn ->
            exists i, nth_error (keys all_images) i = Some url
                      /\ fn = image_filename h (S i) url).
  { intros url fn G. eapply mapping_entry in G; eauto. }
  split.
  - intros url fn G. destruct (Entry url fn G) as (i & Hi & ->).
    exists i. repeat split; [assumption|apply extension_known].
  - intros u1 u2 f1 f2 G1 G2 NEq E.
    destruct (Entry u1 f1 G1) as (i & Hi & ->).
    destruct (Entry u2 f2 G2) as (j & Hj & ->).
    apply image_filename_inj in E. injection E as ->. congruence.
Qed.

Lemma X2_image_file_names_distinct_witness :
  let st := snd (main_fetch (O := stdlib_order) both_served
                   [lit "site/x.html"] two_images_world) in
  Forall (fun p : str => p <> []) [lit "site/x.html"]
  /\ dict_get (image_mapping st) (lit "https://x.com/a.png")
     = Some (lit "image_1.png")
  /\ dict_get (image_mapping st) (lit "https://x.com/b.png")
     = Some (lit "image_2.png")
  /\ lit "image_1.png" <> lit "image_2.png".
Proof.
  assert (NE : Forall (fun p : str => p <> []) [lit "site/x.html"]).
  { constructor; [discriminate|constructor]. }
  split; [exact NE|]. split; [reflexivity|]. split; [reflexivity|].
  refine (proj2 (@X2_image_file_names_distinct stdlib_order both_served
                   [lit "site/x.html"] two_images_world NE)
            (lit "https://x.com/a.png") (lit "https://x.com/b.png")
            (lit "image_1.png") (lit "image_2.png") _ _ _).
  - reflexivity.
  - reflexivity.
  - discriminate.
Defined.

Lemma dict_get_In {V} (d : dict V) k v : dict_get d k = Some v -> In (k, v) d.
Proof.
  induction d as [|[k0 v0] d IH]; simpl; [discriminate|].
  destruct (str_eqb k0 k) eqn:E.
  - apply str_eqb_eq in E. subst k0. intros [= ->]. now left.
  - intros H. right. now apply IH.
Qed.

Lemma dict_set_fresh {V} (d : dict V) k v :
  ~ In k (keys d) -> dict_set d k v = d ++ [(k, v)].
Proof.
  induction d as [|[k0 v0] d IH]; simpl; intros N; [reflexivity|].
  destruct (str_eqb k0 k) eqn:E.
  - apply str_eqb_eq in E. subst k0. exfalso. apply N. now left.
  - f_equal. apply IH. intros I. apply N. now right.
Qed.

Section Index.
Context {O : SetOrder}.
Variable f : fs.

Lemma scan_files_entries paths all_images file_images p images :
  In (p, images) (snd (scan_files f paths all_images file_images)) ->
  In (p, images) file_images
  \/ (In p paths /\ images = extract_of f p /\ images <> []).
Proof.
  revert all_images file_images.
  induction paths as [|q paths IH]; intros a fi I; [now left|].
  rewrite scan_files_step in I. apply IH in I as [I|(I & E & N)].
  - destruct (extract_of f q) as [|u l] eqn:X; [now left|].
    apply In_dict_set in I as [[-> ->]|I]; [|now left].
    right. repeat split; [now left|now symmetry|discriminate].
  - right. repeat split; [now right|assumption|assumption].
Qed.

Lemma indexed_somewhere paths url :
  In url (keys (fst (scan_files f paths [] []))) ->
  exists p, In p paths /\ In url (extract_of f p).
Proof.
  rewrite scan_files_keys. intros I. apply add_new_In in I as [[]|I].
  apply in_flat_map in I. exact I.
Qed.

Lemma documents_with_In paths url p :
  In p (documents_with f paths url) <-> In p paths /\ In url (extract_of f p).
Proof. unfold documents_with. rewrite filter_In, mem_In. reflexivity. Qed.

Lemma scan_files_recorded paths all_images file_images :
  NoDup paths ->
  (forall p, In p paths -> ~ In p (keys file_images)) ->
  snd (scan_files f paths all_images file_images)
  = file_images ++ flat_map (recorded f) paths.
Proof.
  intros ND. revert all_images file_images.
  induction ND as [|p paths N ND IH]; intros a fi Fresh.
  - simpl. now rewrite app_nil_r.
  - rewrite scan_files_step. simpl flat_map. rewrite app_assoc.
    assert (E : (match extract_of f p with
                 | [] => fi
                 | _ :: _ => dict_set fi p (extract_of f p)
                 end) = fi ++ recorded f p).
    { unfold recorded. destruct (extract_of f p) as [|u l] eqn:X.
      - now rewrite app_nil_r.
      - apply dict_set_fresh. apply Fresh. now left. }
    destruct (extract_of f p) as [|u l] eqn:X; rewrite <- E; apply IH;
      intros q I K.
    + revert K. apply Fresh. now right.
    + apply In_keys_dict_set in K as [K| ->]; [|contradiction].
      revert K. apply Fresh. now right.
Qed.

Lemma first_file_recorded paths url :
  first_file (flat_map (recorded f) paths) url
  = hd_error (documents_with f paths url).
Proof.
  induction paths as [|p paths IH]; [reflexivity|].
  unfold documents_with in *. simpl. unfold recorded at 1.
  destruct (extract_of f p) as [|u l] eqn:X; simpl.
  - exact IH.
  - destruct (str_eqb url u || mem url l)%bool; [reflexivity|exact IH].
Qed.

End Index.

(** X3.  The reference index is sound.  Every reference of [all_images]
    has at least one document; the documents listed for it are scanned
    files whose extraction holds it; and every entry of [file_images] is a
    scanned file with exactly what was extracted from it, which is not
    empty (files without references and files that cannot be read get no
    entry). *)
Theorem X3_reference_index_is_sound
  (O : SetOrder) (f : fs) (paths : list str) :
  let all_images := fst (scan_files f paths [] []) in
  let file_images := snd (scan_files f paths [] []) in
  (forall url, In url (keys all_images) ->
     exists d rest, dict_get all_images url = Some (d :: rest))
  /\ (forall url documents, dict_get all_images url = Some documents ->
        Forall (fun p => In p paths /\ In url (extract_of f p)) documents)
  /\ (forall p images, dict_get file_images p = Some images ->
        In p paths /\ images = extract_of f p /\ images <> []).
Proof.
  simpl. split; [|split].
  - intros url I. apply indexed_somewhere in I as (p & P & U).
    rewrite scan_files_get. simpl.
    destruct (documents_with f paths url) as [|d rest] eqn:D.
    + exfalso. assert (X : In p (documents_with f paths url))
        by (apply documents_with_In; auto).
      rewrite D in X. destruct X.
    + exists d, rest. reflexivity.
  - intros url documents G. rewrite scan_files_get in G. simpl in G.
    destruct (documents_with f paths url) as [|d rest] eqn:D; [discriminate|].
    injection G as <-. rewrite <- D. apply Forall_forall.
    intros p. apply documents_with_In.
  - intros p images G. apply dict_get_In, scan_files_entries in G.
    destruct G as [[]|G]. exact G.
Qed.

(** X4.  The folder an image is stored in is that of the first scanned
    document that holds it: [first_file], which [main] finds by searching
    [file_images], is the head of the document list that [all_images]
    records for the reference. *)
Theorem X4_first_file_is_first_document
  (O : SetOrder) (f : fs) (paths : list str) (url : str) :
  NoDup paths ->
  first_file (snd (scan_files f paths [] [])) url
  = match dict_get (fst (scan_files f paths [] [])) url with
    | Some (d :: _) => Some d
    | _ => None
    end.
Proof.
  intros ND. rewrite (@scan_files_recorded O f paths [] [] ND)
    by (intros p _ []).
  simpl. rewrite first_file_recorded, scan_files_get. simpl.
  destruct (documents_with f paths url); reflexivity.
Qed.

Lemma X4_first_file_is_first_document_witness :
  NoDup [lit "site/one.html"; lit "site/two.html"]
  /\ first_file
       (snd (scan_files (O := stdlib_order) (files case_world)
               [lit "site/one.html"; lit "site/two.html"] [] []))
       (lit "https://x.com/b.png")
     = Some (lit "site/two.html").
Proof.
  assert (ND : NoDup [lit "site/one.html"; lit "site/two.html"]).
  { constructor; [intros [H|[]]; discriminate H|].
    constructor; [intros []|constructor]. }
  split; [exact ND|].
  exact (@X4_first_file_is_first_document stdlib_order (files case_world)
           [lit "site/one.html"; lit "site/two.html"]
           (lit "https://x.com/b.png") ND).
Defined.

End ImagesMore.

(** ** The rewriters: counts and untouched text *)

Module RewriteMore.
Import Py Re Env Samples PyFacts DictFacts RewriteFacts.

(** X5.  When the image rewriter reports zero replacements it has made no
    substitution: the text it returns is the text it was given. *)
Theorem X5_zero_count_returns_input (html : str) (mapping : dict str) :
  snd (Images.replace_image_links html mapping) = 0 ->
  fst (Images.replace_image_links html mapping) = html.
Proof. apply replace_entries_zero. Qed.

Lemma X5_zero_count_returns_input_witness :
  snd (Images.replace_image_links plain_text image_map) = 0
  /\ fst (Images.replace_image_links plain_text image_map) = plain_text.
Proof.
  split; [reflexivity|].
  apply (@X5_zero_count_returns_input plain_text image_map). reflexivity.
Defined.

Section RewriteAll.
Variable mapping : dict str.

Lemma rewrite_all_facts file_images :
  forall f m t,
    let r := Images.rewrite_all mapping file_images f m t in
    (forall p, ~ In p (keys file_images) -> fst (fst r) p = f p)
    /\ m <= snd (fst r)
    /\ snd (fst r) - m <= snd r - t
    /\ t <= snd r
    /\ snd (fst r) <= m + List.length file_images
    /\ (snd r = t -> forall p, fst (fst r) p = f p).
Proof.
  induction file_images as [|[file_path images] rest IH]; intros f m t.
  - simpl. repeat split; auto; lia.
  - cbn [Images.rewrite_all].
    destruct (f file_path) as [content|] eqn:C.
    + destruct (Images.replace_image_links content mapping) as [mc n] eqn:R.
      destruct (Nat.ltb 0 n) eqn:L.
      * apply Nat.ltb_lt in L.
        destruct (IH (write f file_path mc) (S m) (t + n))
          as (F & A & B & D & E & Z).
        cbv zeta. repeat split; try (simpl List.length; lia).
        intros p N. rewrite F by (intros I; apply N; now right).
        unfold write. destruct (str_eqb p file_path) eqn:X; [|reflexivity].
        apply str_eqb_eq in X. subst p. exfalso. apply N. now left.
      * destruct (IH f m t) as (F & A & B & D & E & Z).
        cbv zeta. repeat split; try (simpl List.length; lia); auto.
        intros p N. apply F. intros I. apply N. now right.
    + destruct (IH f m t) as (F & A & B & D & E & Z).
      cbv zeta. repeat split; try (simpl List.length; lia); auto.
      intros p N. apply F. intros I. apply N. now right.
Qed.

End RewriteAll.

(** X6.  The rewriting step of [main] writes only documents in which the
    scan found references: every other file is as it was.  Its counters
    agree with one another: no more files are counted as modified than
    links as replaced or than there are indexed documents, and when no
    link is counted no file is written at all. *)
Theorem X6_rewrite_step_frame_and_counters
  (mapping : dict str) (file_images : dict (list str)) (f : fs) :
  let r := Images.rewrite_all mapping file_images f 0 0 in
  (forall p, ~ In p (keys file_images) -> fst (fst r) p = f p)
  /\ snd (fst r) <= snd r
  /\ snd (fst r) <= List.length file_images
  /\ (snd r = 0 -> forall p, fst (fst r) p = f p).
Proof.
  destruct (rewrite_all_facts mapping file_images f 0 0)
    as (F & A & B & D & E & Z).
  cbv zeta. repeat split; auto; lia.
Qed.

(** *** The YouTube and Panopto rewriters *)

Lemma youtube_patterns_facts local_path pats :
  forall modified n,
    let r := YouTube.replace_patterns local_path pats modified n in
    n <= snd r /\ snd r <= n + List.length pats
    /\ (snd r = n -> fst r = modified).
Proof.
  induction pats as [|pattern rest IH]; intros modified n.
  - simpl. repeat split; auto; lia.
  - cbn [YouTube.replace_patterns].
    destruct (str_eqb _ modified) eqn:E.
    + destruct (IH modified n) as (A & B & Z).
      cbv zeta. repeat split; auto; simpl List.length; lia.
    + destruct (IH (sub true pattern (fun _ => local_path) modified) (S n))
        as (A & B & Z).
      cbv zeta. repeat split; simpl List.length; lia.
Qed.

Lemma youtube_entries_facts mapping :
  forall modified n,
    let r := YouTube.replace_entries mapping modified n in
    n <= snd r /\ snd r <= n + 3 * List.length mapping
    /\ (snd r = n -> fst r = modified).
Proof.
  induction mapping as [|[video_id local_path] rest IH]; intros modified n.
  - simpl. repeat split; auto; lia.
  - cbn [YouTube.replace_entries].
    pose proof (youtube_patterns_facts local_path
                  (YouTube.replace_patterns_of video_id) modified n) as P.
    destruct (YouTube.replace_patterns local_path
                (YouTube.replace_patterns_of video_id) modified n)
      as [m1 n1].
    cbv zeta in P. simpl fst in P. simpl snd in P.
    destruct P as (A1 & B1 & Z1).
    change (List.length (YouTube.replace_patterns_of video_id)) with 3 in B1.
    destruct (IH m1 n1) as (A & B & Z).
    cbv zeta. repeat split; try (simpl List.length; lia).
    intros Q. assert (n1 = n) by lia. subst n1.
    rewrite Z by assumption. now apply Z1.
Qed.

Lemma panopto_patterns_facts local_path pats :
  forall modified n,
    let r := Panopto.replace_patterns local_path pats modified n in
    n <= snd r /\ (snd r = n -> fst r = modified).
Proof.
  induction pats as [|pattern rest IH]; intros modified n.
  - simpl. auto.
  - cbn [Panopto.replace_patterns].
    destruct (findall true pattern modified) as [|m0 ms] eqn:F.
    + apply IH.
    + destruct (IH (sub true pattern (fun _ => local_path) modified)
                  (n + List.length (m0 :: ms))) as (A & Z).
      cbv zeta. simpl List.length in *. split; [lia|].
      intros Q. exfalso. lia.
Qed.

Lemma panopto_entries_facts mapping :
  forall modified n,
    let r := Panopto.replace_entries mapping modified n in
    n <= snd r /\ (snd r = n -> fst r = modified).
Proof.
  induction mapping as [|[video_id local_filename] rest IH]; intros modified n.
  - simpl. auto.
  - cbn [Panopto.replace_entries].
    pose proof (panopto_patterns_facts (lit "videos/" ++ local_filename)
                  [Panopto.google_redirect_pattern video_id;
                   Panopto.direct_pattern video_id] modified n) as P.
    destruct (Panopto.replace_patterns (lit "videos/" ++ local_filename)
                [Panopto.google_redirect_pattern video_id;
                 Panopto.direct_pattern video_id] modified n) as [m1 n1].
    cbv zeta in P. simpl fst in P. simpl snd in P. destruct P as (A1 & Z1).
    destruct (IH m1 n1) as (A & Z).
    cbv zeta. split; [lia|].
    intros Q. assert (n1 = n) by lia. subst n1.
    rewrite Z by assumption. now apply Z1.
Qed.

(** X7.  The count of [replace_youtube_links] is a count of patterns, not
    of links: each of the three URL shapes of a mapping entry adds one
    when it changes the text, however many links it rewrites, so the count
    is at most three times the size of the mapping.  For this rewriter
    and for [replace_panopto_links], a count of zero means that the text
    is returned as it was given. *)
Theorem X7_video_rewriters_counts
  (html : str) (youtube_mapping panopto_mapping : dict str) :
  snd (YouTube.replace_youtube_links html youtube_mapping)
  <= 3 * List.length youtube_mapping
  /\ (snd (YouTube.replace_youtube_links html youtube_mapping) = 0 ->
      fst (YouTube.replace_youtube_links html youtube_mapping) = html)
  /\ (snd (Panopto.replace_panopto_links html panopto_mapping) = 0 ->
      fst (Panopto.replace_panopto_links html panopto_mapping) = html).
Proof.
  destruct (youtube_entries_facts youtube_mapping html 0) as (_ & B & Z).
  destruct (panopto_entries_facts panopto_mapping html 0) as (_ & Z').
  repeat split; assumption.
Qed.

End RewriteMore.

(** ** What a captured id is made of *)

Module IdFacts.
Import Py Re Env Samples PyFacts DictFacts ReFacts.

Section Captured.
Variable R : Type.

Lemma star_k_all (p : ascii -> bool) (s : str) (k : str -> option R) x :
  star_k p s k = Some x ->
  exists pre s', s = pre ++ s' /\ forallb p pre = true /\ k s' = Some x.
Proof.
  induction s as [|c s IH]; simpl; intros H.
  - exists [], []. auto.
  - destruct (p c) eqn:P.
    + destruct (star_k p s k) eqn:E.
      * injection H as ->. destruct (IH eq_refl) as (pre & s' & -> & A & K).
        exists (c :: pre), s'. simpl. rewrite P, A. auto.
      * exists [], (c :: s). auto.
    + exists [], (c :: s). auto.
Qed.

(** A pattern that ends with [(a+)] hands on a group that is not empty
    and is made of characters [a] accepts. *)
Lemma run_tail_group ic a r :
  tail_group a r ->
  forall (s : str) g (k : str -> option str -> option R) x,
    run ic r s g k = Some x ->
    exists s' t,
      k s' (Some t) = Some x /\ t <> []
      /\ forallb (atom_match ic a) t = true.
Proof.
  induction 1 as [|r1 r2 T IH]; intros s g k x H.
  - simpl in H. destruct s as [|c s]; [discriminate|].
    destruct (atom_match ic a c) eqn:M; [|discriminate].
    apply star_k_all in H as (pre & s' & -> & A & K).
    exists s', (c :: pre). repeat split.
    + rewrite <- K. do 2 f_equal.
      change (c :: pre ++ s') with ((c :: pre) ++ s').
      rewrite length_app.
      replace (List.length (c :: pre) + List.length s' - List.length s')
        with (List.length (c :: pre)) by lia.
      now rewrite firstn_app, Nat.sub_diag, firstn_all, app_nil_r.
    + discriminate.
    + simpl. now rewrite M, A.
  - simpl in H.
    apply run_consumes with (P := fun _ => false) in H
      as (pre & s1 & g1 & _ & _ & K).
    eapply IH. exact K.
Qed.

End Captured.

Lemma has_group_tail a r : tail_group a r -> has_group r = true.
Proof.
  induction 1 as [|r1 r2 T IH]; simpl; [reflexivity|].
  rewrite IH. apply orb_true_r.
Qed.

Lemma scan_Forall ic r (Q : str * str -> Prop) :
  (forall s len g, match_at ic r s = Some (len, g) ->
     Q (firstn len s, reported r s len g)) ->
  forall s skip, Forall Q (scan ic r s skip).
Proof.
  intros H. induction s as [|c s IH]; intros skip.
  - destruct skip; simpl; [|constructor].
    destruct (match_at ic r []) as [[len g]|] eqn:E; constructor.
    + now apply H.
    + constructor.
  - destruct skip; simpl; [|apply IH].
    destruct (match_at ic r (c :: s)) as [[len g]|] eqn:E.
    + constructor; [now apply H|apply IH].
    + apply IH.
Qed.

(** What [findall] and [finditer] report for such a pattern. *)
Lemma scan_tail_group ic a r s skip :
  tail_group a r ->
  Forall (fun m => snd m <> [] /\ forallb (atom_match ic a) (snd m) = true)
    (scan ic r s skip).
Proof.
  intros T. apply scan_Forall. intros s0 len g M.
  unfold match_at in M.
  apply (run_tail_group ic T) in M as (s' & t & K & N & A).
  injection K as _ <-. unfold reported. rewrite (has_group_tail T). auto.
Qed.

Lemma forallb_impl {A} (p q : A -> bool) (l : list A) :
  (forall x, p x = true -> q x = true) ->
  forallb p l = true -> forallb q l = true.
Proof.
  intros PQ. rewrite !forallb_forall. auto.
Qed.

(** The sets of the patterns accept the characters they are meant to, with
    and without IGNORECASE; decided by trying every character. *)
Lemma id_char_spec ic c :
  atom_match ic YouTube.id_char c = true -> YouTube.is_id_char c = true.
Proof.
  assert (All : forallb (fun c => implb (atom_match true YouTube.id_char c)
                                    (YouTube.is_id_char c)
                                  && implb (atom_match false YouTube.id_char c)
                                       (YouTube.is_id_char c))%bool
                  all_chars = true) by (vm_compute; reflexivity).
  rewrite forallb_forall in All. specialize (All c (all_chars_complete c)).
  apply andb_true_iff in All as [T F].
  destruct ic; intros M; rewrite M in *; assumption.
Qed.

Lemma hex_char_spec c :
  atom_match true Panopto.hex_char c = true -> Panopto.is_hex_char c = true.
Proof.
  assert (All : forallb (fun c => implb (atom_match true Panopto.hex_char c)
                                    (Panopto.is_hex_char c))
                  all_chars = true) by (vm_compute; reflexivity).
  rewrite forallb_forall in All. specialize (All c (all_chars_complete c)).
  intros M. now rewrite M in All.
Qed.

Lemma findall_ids ic (prefix : re) (s : str) :
  Forall YouTube.well_formed_id
    (findall ic (Cat prefix (Grp (Plus YouTube.id_char))) s).
Proof.
  unfold findall. apply Forall_map.
  eapply Forall_impl;
    [|apply (scan_tail_group ic (a := YouTube.id_char)); repeat constructor].
  intros m [N A]. split; [assumption|].
  eapply forallb_impl; [|exact A]. apply id_char_spec.
Qed.

(** *** download_youtube_videos.py *)





(** *** download_videos.py and download_videos_gdown.py *)

Lemma found_ids_ok (html : str) :
  Forall YouTube.well_formed_id (Gdown.found_ids html).
Proof.
  unfold Gdown.found_ids, Gdown.patterns, Drive.patterns, Drive.id_group.
  simpl. rewrite app_nil_r. repeat (apply Forall_app; split);
    apply findall_ids.
Qed.

Lemma drive_ids_found (html : str) (link : str) :
  In link (Drive.extract_google_drive_links html) ->
  exists file_id,
    link = lit "https://drive.google.com/uc?export=download&id=" ++ file_id
    /\ In file_id (Gdown.found_ids html).
Proof.
  unfold Drive.extract_google_drive_links, Gdown.found_ids, Gdown.patterns.
  rewrite flat_map_app. intros I.
  apply in_flat_map in I as (pattern & P & I).
  apply in_map_iff in I as (file_id & <- & I).
  exists file_id. split; [reflexivity|].
  apply in_app_iff. left. apply in_flat_map. eauto.
Qed.

(** X9.  The Drive file ids the gdown script extracts from a document are
    pairwise different and each a non-empty run of letters, digits,
    underscores and hyphens.  Every link the urllib script
    (download_videos.py) builds from the same document is the download URL
    of one of these ids: the gdown script misses no file the other one
    finds. *)
Theorem X9_drive_ids_well_formed (O : SetOrder) (html : str) :
  NoDup (Gdown.extract_google_drive_file_ids html)
  /\ Forall YouTube.well_formed_id (Gdown.extract_google_drive_file_ids html)
  /\ Forall
       (fun link =>
          exists file_id,
            link = lit "https://drive.google.com/uc?export=download&id="
                   ++ file_id
            /\ In file_id (Gdown.extract_google_drive_file_ids html))
       (Drive.extract_google_drive_links html).
Proof.
  unfold Gdown.extract_google_drive_file_ids. split; [|split].
  - apply set_list_NoDup.
  - apply Forall_forall. intros x I. apply (proj1 (set_list_In _ _)) in I.
    pose proof (found_ids_ok html) as F. rewrite Forall_forall in F. auto.
  - apply Forall_forall. intros link I.
    apply drive_ids_found in I as (file_id & E & I).
    exists file_id. split; [assumption|]. now apply set_list_In.
Qed.

(** *** download_panopto_videos.py *)

Section Panopto.
Variable unquote : str -> str.

Lemma extract_panopto_id_ok (u video_id : str) :
  Panopto.extract_panopto_id unquote u = Some video_id ->
  video_id <> [] /\ forallb Panopto.is_hex_char video_id = true.
Proof.
  unfold Panopto.extract_panopto_id, search.
  pose proof (@scan_tail_group true Panopto.hex_char Panopto.id_pattern
                (unquote u) 0) as F.
  destruct (scan true Panopto.id_pattern (unquote u) 0) as [|[w g] ms];
    [discriminate|].
  intros [= <-].
  assert (T : tail_group Panopto.hex_char Panopto.id_pattern)
    by (unfold Panopto.id_pattern; simpl; repeat constructor).
  specialize (F T). inversion F as [|? ? [N A] _]; subst. simpl in N, A.
  split; [assumption|].
  eapply forallb_impl; [|exact A]. apply hex_char_spec.
Qed.

Lemma panopto_data_ok (urls : list str) :
  Forall Panopto.canonical (Panopto.panopto_data unquote urls).
Proof.
  induction urls as [|u urls IH]; simpl; [constructor|].
  destruct (Panopto.extract_panopto_id unquote u) as [[|c video_id]|] eqn:E;
    try assumption.
  constructor; [|assumption].
  apply extract_panopto_id_ok in E as [N A]. repeat split; assumption.
Qed.

Lemma unique_data_ok (P : Panopto.video -> Prop) data :
  forall seen,
    Forall P data ->
    Forall P (Panopto.unique_data data seen)
    /\ NoDup (map Panopto.id (Panopto.unique_data data seen))
    /\ (forall v, In v (Panopto.unique_data data seen) ->
          ~ In (Panopto.id v) seen).
Proof.
  induction data as [|v data IH]; intros seen F; simpl.
  - repeat split; [constructor|constructor|intros v []].
  - inversion F as [|? ? Pv F']; subst.
    destruct (mem (Panopto.id v) seen) eqn:M; [now apply IH|].
    apply mem_false in M.
    destruct (IH (Panopto.id v :: seen) F') as (A & B & C).
    repeat split.
    + now constructor.
    + simpl. constructor; [|assumption].
      intros I. apply in_map_iff in I as (v' & E & I).
      apply (C v' I). left. now symmetry.
    + intros v' [<-|I]; [assumption|].
      intros X. apply (C v' I). now right.
Qed.

End Panopto.

(** X10.  Whatever [unquote] makes of the links, the videos
    [extract_panopto_links] returns have pairwise different ids; every id
    is a non-empty run of hexadecimal digits (either case) and hyphens; and
    the URL kept for a video is always the viewer URL of that id on
    montessori-ami.hosted.panopto.com, not the link found in the
    document. *)
Theorem X10_panopto_links_canonical (unquote : str -> str) (html : str) :
  NoDup (map Panopto.id (Panopto.extract_panopto_links unquote html))
  /\ Forall
       (fun v =>
          Panopto.id v <> []
          /\ forallb Panopto.is_hex_char (Panopto.id v) = true
          /\ Panopto.url v = Panopto.clean_prefix ++ Panopto.id v)
       (Panopto.extract_panopto_links unquote html).
Proof.
  unfold Panopto.extract_panopto_links.
  destruct (@unique_data_ok Panopto.canonical
              (Panopto.panopto_data unquote (Panopto.all_urls unquote html))
              [] (panopto_data_ok unquote _)) as (A & B & _).
  split; assumption.
Qed.

End IdFacts.

(** ** The video fetchers: what a result tells, what a document keeps *)

Module FetchMore.
Import Py Re Env Samples PyFacts DictFacts.

Lemma exists_size (f : fs) (p : str) :
  (exists_ f p && Nat.ltb 0 (getsize f p))%bool = true ->
  exists_ f p = true /\ 0 < getsize f p.
Proof.
  intros H. apply andb_true_iff in H as [E L].
  apply Nat.ltb_lt in L. auto.
Qed.

(** X11.  A True from [download_video] or [download_youtube_video] means
    that the destination file is on disk afterwards; and when the file was
    not there before the call, that it is not empty.  (The urllib fetcher
    [download_file] gives no such assurance: it returns True as soon as
    [urlretrieve] returns.) *)
Theorem X11_success_means_file_on_disk
  (h : Host) (file_id dest : str) (n : nat) (w : world) :
  let out := path_join h dest (Drive.video_file n) in
  let yout := path_join h dest (YouTube.youtube_file n) in
  let r := Gdown.download_video h file_id dest n w in
  let y := YouTube.download_youtube_video h file_id dest n w in
  (fst r = true ->
   exists_ (files (snd r)) out = true
   /\ (exists_ (files w) out = false -> 0 < getsize (files (snd r)) out))
  /\ (fst y = true ->
      exists_ (files (snd y)) yout = true
      /\ (exists_ (files w) yout = false -> 0 < getsize (files (snd y)) yout)).
Proof.
  cbv zeta. split.
  - unfold Gdown.download_video.
    destruct (exists_ (files w) _) eqn:E; simpl.
    + intros _. split; [assumption|discriminate].
    + destruct (downloader h _ _ _ _) as [f0|f0]; simpl; [|discriminate].
      destruct (exists_ f0 _ && Nat.ltb 0 _)%bool eqn:X; simpl;
        [|discriminate].
      apply exists_size in X as [A B]. auto.
  - unfold YouTube.download_youtube_video.
    destruct (exists_ (files w) _) eqn:E; simpl.
    + intros _. split; [assumption|discriminate].
    + destruct (downloader h _ _ _ _) as [f0|f0]; simpl; [|discriminate].
      destruct (exists_ f0 _ && Nat.ltb 0 _)%bool eqn:X; simpl;
        [|discriminate].
      apply exists_size in X as [A B]. auto.
Qed.

Section OneYouTubeDocument.
Variable h : Host.
Variable keep : str.

Hypothesis downloader_frame :
  forall log url out f0,
    out <> keep -> outcome_files (downloader h log url out f0) keep = f0 keep.

Lemma download_youtube_video_keeps video_id dest n w :
  path_join h dest (YouTube.youtube_file n) <> keep ->
  files (snd (YouTube.download_youtube_video h video_id dest n w)) keep
  = files w keep.
Proof.
  intros NK. unfold YouTube.download_youtube_video.
  destruct (exists_ (files w) _); simpl; [reflexivity|].
  pose proof (downloader_frame (downloads w)
                (lit "https://www.youtube.com/watch?v=" ++ video_id)
                (files w) NK) as Fr.
  destruct (downloader h _ _ _ _) as [f0|f0]; simpl in Fr |- *;
    [|assumption].
  destruct (exists_ f0 _) eqn:X; simpl; [|assumption].
  destruct (Nat.ltb 0 _); simpl; [assumption|].
  unfold remove. apply str_eqb_neq in NK. rewrite str_eqb_sym in NK.
  now rewrite NK.
Qed.

Lemma download_videos_facts dest videos :
  (forall j, path_join h dest (YouTube.youtube_file j) <> keep) ->
  forall i mapping n w,
    let r := YouTube.download_videos h dest videos i mapping n w in
    files (snd r) keep = files w keep
    /\ n <= snd (fst r) /\ snd (fst r) <= n + List.length videos
    /\ (snd (fst r) = n -> fst (fst r) = mapping).
Proof.
  intros NK. induction videos as [|v videos IH]; intros i mapping n w.
  - simpl. repeat split; auto; lia.
  - cbn [YouTube.download_videos].
    pose proof (download_youtube_video_keeps (YouTube.id v) dest i w (NK i))
      as K.
    destruct (YouTube.download_youtube_video h (YouTube.id v) dest i w)
      as [ok w1]. simpl in K.
    destruct ok.
    + destruct (IH (S i)
                  (dict_set mapping (YouTube.id v)
                     (lit "videos/" ++ YouTube.youtube_file i)) (S n) w1)
        as (F & A & B & Z).
      cbv zeta. repeat split; try (simpl List.length; lia). congruence.
    + destruct (IH (S i) mapping n w1) as (F & A & B & Z).
      cbv zeta. repeat split; try (simpl List.length; lia); auto.
      congruence.
Qed.

End OneYouTubeDocument.

(** X12.  [process_html_file] of the YouTube script rewrites a document
    only when at least one of its videos was fetched: if it returns 0, the
    document reads as before, provided the downloader itself leaves it
    alone.  What it returns is never more than the number of videos
    extracted from the document. *)
Theorem X12_youtube_document_kept_without_download
  (h : Host) (filepath : str) (w : world) :
  (forall log url out f0,
     out <> filepath ->
     outcome_files (downloader h log url out f0) filepath = f0 filepath) ->
  (forall j,
     path_join h (path_join h (dirname h filepath) (lit "videos"))
       (YouTube.youtube_file j) <> filepath) ->
  let r := YouTube.process_html_file h filepath w in
  (fst r = 0 -> files (snd r) filepath = files w filepath)
  /\ fst r <= match files w filepath with
              | Some content =>
                  List.length (YouTube.extract_youtube_links content)
              | None => 0
              end.
Proof.
  intros Fr NK. cbv zeta. unfold YouTube.process_html_file.
  destruct (files w filepath) as [content|] eqn:C; [|simpl; auto].
  destruct (YouTube.extract_youtube_links content) as [|v vs] eqn:E;
    [simpl; auto|].
  destruct (parents3_ok h filepath); cbn [negb]; [|simpl; split; [auto|lia]].
  destruct (download_videos_facts h Fr
              (path_join h (dirname h filepath) (lit "videos")) (v :: vs) NK
              1 [] 0 w) as (F & A & B & Z).
  destruct (YouTube.download_videos h _ (v :: vs) 1 [] 0 w)
    as [[mapping n] w1].
  simpl in F, A, B, Z.
  destruct mapping as [|e mapping].
  - simpl. split; [intros _; congruence|lia].
  - destruct (YouTube.replace_youtube_links content (e :: mapping))
      as [modified replacements].
    assert (N : n <> 0) by (intros ->; now specialize (Z eq_refl)).
    destruct (Nat.ltb 0 replacements); simpl;
      (split; [intros Q; contradiction|lia]).
Qed.

Lemma X12_youtube_document_kept_without_download_witness :
  let r := YouTube.process_html_file offline (lit "s/a/b/c/x.html")
             youtube_world in
  fst r = 0
  /\ files (snd r) (lit "s/a/b/c/x.html") = Some youtube_doc.
Proof.
  assert (Fr : forall log url out f0,
            out <> lit "s/a/b/c/x.html" ->
            outcome_files (downloader offline log url out f0)
              (lit "s/a/b/c/x.html") = f0 (lit "s/a/b/c/x.html"))
    by reflexivity.
  assert (NK : forall j,
            path_join offline
              (path_join offline (dirname offline (lit "s/a/b/c/x.html"))
                 (lit "videos")) (YouTube.youtube_file j)
            <> lit "s/a/b/c/x.html").
  { intros j H. vm_compute in H. discriminate H. }
  split; [reflexivity|].
  apply (proj1 (@X12_youtube_document_kept_without_download offline
                  (lit "s/a/b/c/x.html") youtube_world Fr NK)).
  reflexivity.
Defined.

End FetchMore.

(** ** The injector: literal matching and the whole run *)

Module InjectorMore.
Import Py Re Env Samples PyFacts SubstringFacts InjectorFacts FixHtml.

(** A literal pattern matches where the text starts with it. *)
Lemma run_Str (R : Type) (p : str) :
  forall (s : str) g (k : str -> option str -> option R),
    run false (Str p) s g k
    = if startswith p s then k (skipn (List.length p) s) g else None.
Proof.
  induction p as [|c p IH]; intros s g k; [reflexivity|].
  destruct p as [|c2 p].
  - simpl. destruct s as [|d s]; [reflexivity|].
    unfold ascii_eqb. rewrite andb_true_r. reflexivity.
  - change (Str (c :: c2 :: p)) with (Cat (Atom (AChr c)) (Str (c2 :: p))).
    cbn [run]. destruct s as [|d s]; [reflexivity|].
    change (startswith (c :: c2 :: p) (d :: s))
      with (ascii_eqb c d && startswith (c2 :: p) s)%bool.
    cbn [atom_match]. destruct (ascii_eqb c d); [|reflexivity].
    rewrite IH. reflexivity.
Qed.

Lemma startswith_length (p s : str) :
  startswith p s = true -> firstn (List.length p) s = p.
Proof.
  revert s. induction p as [|c p IH]; intros s H; [reflexivity|].
  destruct s as [|d s]; [discriminate|].
  apply startswith_cons in H as [-> H]. simpl. f_equal. now apply IH.
Qed.

Lemma startswith_split (p s : str) :
  startswith p s = true -> s = p ++ skipn (List.length p) s.
Proof.
  intros H. pose proof (firstn_skipn (List.length p) s) as E.
  rewrite (startswith_length p s H) in E. now symmetry.
Qed.

Lemma startswith_le (p s : str) :
  startswith p s = true -> List.length p <= List.length s.
Proof.
  intros H. rewrite (startswith_split p s H), length_app. lia.
Qed.

Lemma match_at_literal (p s : str) :
  match_at false (Grp (Str p)) s
  = if startswith p s then Some (List.length p, Some p) else None.
Proof.
  unfold match_at. cbn [run]. rewrite run_Str.
  destruct (startswith p s) eqn:E; [|reflexivity].
  pose proof (startswith_le p s E) as L.
  rewrite length_skipn.
  replace (List.length s - (List.length s - List.length p))
    with (List.length p) by lia.
  now rewrite (startswith_length p s E).
Qed.

(** Once the count is used up the rest of the text is copied. *)
Lemma sub_from_done ic r f (s : str) :
  forall skip, sub_from ic r f s skip (Some 0) = skipn skip s.
Proof.
  induction s as [|c s IH]; intros [|n]; simpl; auto.
Qed.

(** [re.sub('(p)', f, s, count=1)] is [s.replace(p, f(p), 1)]. *)
Lemma sub_once_literal (c : ascii) (p : str) f (s : str) :
  sub_count false (Grp (Str (c :: p))) f s 1
  = replace_first (c :: p) (f (c :: p)) s.
Proof.
  unfold sub_count. induction s as [|d s IH].
  - cbn [sub_from replace_first]. rewrite match_at_literal. reflexivity.
  - cbn [sub_from replace_first]. rewrite match_at_literal.
    destruct (startswith (c :: p) (d :: s)) eqn:E.
    + rewrite (startswith_length _ _ E). cbn [List.length option_map Nat.pred].
      now rewrite sub_from_done.
    + now rewrite IH.
Qed.

Lemma replace_first_absent (old new s : str) :
  contains old s = false -> replace_first old new s = s.
Proof.
  induction s as [|c s IH]; simpl; intros H.
  - rewrite orb_false_r in H. now rewrite H.
  - apply orb_false_iff in H as [A B]. rewrite A. f_equal. now apply IH.
Qed.

Lemma replace_first_at (old new s : str) :
  forall i n, find_at old s i = Some n ->
    replace_first old new s
    = firstn (n - i) s ++ new ++ skipn (n - i + List.length old) s.
Proof.
  induction s as [|c s IH]; intros i n H; cbn [find_at replace_first] in *.
  - destruct (startswith old []) eqn:E; [|discriminate].
    injection H as <-. rewrite Nat.sub_diag. reflexivity.
  - destruct (startswith old (c :: s)) eqn:E.
    + injection H as <-. rewrite Nat.sub_diag. reflexivity.
    + pose proof (find_at_Some _ _ _ H) as [L _].
      rewrite (IH _ _ H). replace (n - i) with (S (n - S i)) by lia.
      reflexivity.
Qed.

(** X13.  A page without the literal text [<head>] is never patched: the
    pattern is matched with regard to letter case and as it is written, so
    a head tag in capitals or one with attributes is not found, and the
    file is left as it is with the result False. *)
Theorem X13_no_literal_head_is_skipped (f : fs) (filepath content : str) :
  f filepath = Some content ->
  contains (lit "<head>") content = false ->
  process_html_file f filepath = (false, f).
Proof.
  intros C H. unfold process_html_file. rewrite C.
  destruct (contains marker content); [reflexivity|].
  change (lit "<head>") with ("<"%char :: lit "head>") in *.
  rewrite sub_once_literal, (replace_first_absent _ _ _ H), str_eqb_refl.
  reflexivity.
Qed.

Lemma X13_no_literal_head_is_skipped_witness :
  contains (lit "<head>") capital_page = false
  /\ process_html_file capital_site (lit "index.html") = (false, capital_site).
Proof.
  split; [reflexivity|].
  apply (@X13_no_literal_head_is_skipped capital_site (lit "index.html")
           capital_page); reflexivity.
Defined.

(** A page with a first [<head>] and, once the blocker is in, a
    [</head>]: the file is written with the blocker after that [<head>]
    and with what [disable_scripts] makes of the head. *)
Lemma process_patched
  (f : fs) (filepath content : str) (n head_end : nat) :
  let new_content :=
    firstn n content ++ lit "<head>" ++ [nl] ++ REDIRECT_BLOCKER
    ++ skipn (n + 6) content in
  f filepath = Some content ->
  contains marker content = false ->
  find (lit "<head>") content 0 = Some n ->
  find (lit "</head>") new_content 0 = Some head_end ->
  process_html_file f filepath
  = (true, write f filepath (disable_scripts new_content head_end)).
Proof.
  intros new_content C M F H. unfold process_html_file. rewrite C, M.
  change (lit "<head>") with ("<"%char :: lit "head>") in *.
  rewrite sub_once_literal.
  unfold find in F. simpl Nat.leb in F. simpl skipn in F.
  rewrite (replace_first_at _ _ _ _ F), Nat.sub_0_r.
  unfold replacement. rewrite <- !app_assoc.
  change (List.length ("<"%char :: lit "head>")) with 6.
  fold new_content.
  assert (NE : str_eqb new_content content = false).
  { apply str_eqb_neq. intros E.
    assert (X : contains marker new_content = true).
    { unfold new_content.
      apply (@contains_app_r marker (firstn n content)).
      apply (@contains_app_r marker ("<"%char :: lit "head>")).
      apply (@contains_app_r marker [nl]).
      apply contains_app_l, blocker_has_marker. }
    rewrite E in X. congruence. }
  rewrite NE, H. reflexivity.
Qed.

(** X14.  On a page whose head holds no style sheet, the injector writes
    the page with a newline and the blocker put right after the first
    [<head>], and changes nothing else: a later [<head>] gets no blocker
    and no script is commented out. *)
Theorem X14_blocker_after_first_head
  (f : fs) (filepath content : str) (n head_end : nat) :
  let new_content :=
    firstn n content ++ lit "<head>" ++ [nl] ++ REDIRECT_BLOCKER
    ++ skipn (n + 6) content in
  f filepath = Some content ->
  contains marker content = false ->
  find (lit "<head>") content 0 = Some n ->
  find (lit "</head>") new_content 0 = Some head_end ->
  rfind (lit "</style>") (firstn head_end new_content) = None ->
  process_html_file f filepath = (true, write f filepath new_content).
Proof.
  intros new_content C M F H R.
  rewrite (@process_patched f filepath content n head_end C M F H).
  fold new_content. unfold disable_scripts. rewrite R. reflexivity.
Qed.

Lemma X14_blocker_after_first_head_witness :
  find (lit "<head>") bare_page 0 = Some 6
  /\ process_html_file bare_site (lit "index.html")
     = (true,
        write bare_site (lit "index.html")
          (lit "<html><head>" ++ [nl] ++ REDIRECT_BLOCKER
           ++ lit "<title>t</title></head><body><head></body></html>")).
Proof.
  split; [vm_compute; reflexivity|].
  apply (@X14_blocker_after_first_head bare_site (lit "index.html")
           bare_page 6 3087); vm_compute; reflexivity.
Defined.

(** *** Commenting out the scripts of the head *)

(** A text that begins before an insertion and runs into it holds the
    first inserted character. *)
Lemma startswith_before_insert (old : str) (x : ascii) (rest : str) :
  mem_char x old = false ->
  forall a, startswith old (a ++ x :: rest) = true -> startswith old a = true.
Proof.
  induction old as [|o old IH]; intros N a H; [reflexivity|].
  simpl in N. apply orb_false_iff in N as [Nx Nm].
  destruct a as [|c a].
  - simpl app in H. apply startswith_cons in H as [-> _].
    unfold ascii_eqb in Nx. rewrite Ascii.eqb_refl in Nx. discriminate.
  - simpl app in H. apply startswith_cons in H as [-> H].
    simpl. apply andb_true_iff. split; [apply Ascii.eqb_refl|].
    now apply IH.
Qed.

(** Replacing the first [old] of a text into which [x :: ins] was put
    before that occurrence: the occurrence replaced is the same one. *)
Lemma replace_first_after_insert (old new : str) (x : ascii) (ins : str) :
  mem_char x old = false ->
  (forall post,
     replace_first old new ((x :: ins) ++ post)
     = (x :: ins) ++ replace_first old new post) ->
  forall pre post i n,
    find_at old (pre ++ post) i = Some n ->
    i + List.length pre <= n ->
    replace_first old new (pre ++ (x :: ins) ++ post)
    = pre ++ (x :: ins) ++ firstn (n - i - List.length pre) post ++ new
      ++ skipn (n - i - List.length pre + List.length old) post.
Proof.
  intros N K. induction pre as [|c pre IH]; intros post i n H L.
  - cbn [List.length] in *. rewrite Nat.sub_0_r.
    change ([] ++ (x :: ins) ++ post) with ((x :: ins) ++ post).
    change ([] ++ post) with post in H. rewrite K.
    now rewrite (@replace_first_at old new post i n H).
  - change ((c :: pre) ++ post) with (c :: pre ++ post) in H.
    cbn [List.length find_at] in H, L.
    destruct (startswith old (c :: pre ++ post)) eqn:E.
    + injection H as <-. lia.
    + change ((c :: pre) ++ (x :: ins) ++ post)
        with (c :: pre ++ (x :: ins) ++ post).
      cbn [replace_first].
      destruct (startswith old (c :: pre ++ (x :: ins) ++ post)) eqn:E2.
      * change (c :: pre ++ (x :: ins) ++ post)
          with ((c :: pre) ++ x :: (ins ++ post)) in E2.
        apply (startswith_before_insert old x (ins ++ post) N) in E2.
        apply (startswith_app old (c :: pre) post) in E2.
        change ((c :: pre) ++ post) with (c :: pre ++ post) in E2.
        congruence.
      * rewrite (IH post (S i) n H); [|lia].
        cbn [List.length app].
        now replace (n - i - S (List.length pre))
          with (n - S i - List.length pre) by lia.
Qed.

Lemma disabled_open_skipped (post : str) :
  replace_first (lit "</head>") disabled_close (disabled_open ++ post)
  = disabled_open ++ replace_first (lit "</head>") disabled_close post.
Proof. reflexivity. Qed.

(** What [disable_scripts] does when the head has a style sheet and a
    script after the last one. *)
Lemma disable_scripts_shape (new_content : str) (head_end ls ns : nat) :
  find (lit "</head>") new_content 0 = Some head_end ->
  rfind (lit "</style>") (firstn head_end new_content) = Some ls ->
  find (lit "<script") (firstn head_end new_content) ls = Some ns ->
  ns < head_end
  /\ disable_scripts new_content head_end
     = firstn ns new_content ++ disabled_open
       ++ firstn (head_end - ns) (skipn ns new_content) ++ disabled_close
       ++ skipn (head_end + 7) new_content.
Proof.
  intros H R S.
  assert (B : ns + 7 <= head_end /\ ns + 7 <= List.length new_content).
  { pose proof (startswith_le _ _ (find_Some _ _ _ S)) as L.
    rewrite length_skipn, length_firstn in L.
    change (List.length (lit "<script")) with 7 in L. lia. }
  destruct B as [B1 B2]. split; [lia|].
  unfold disable_scripts. rewrite R, S.
  destruct (Nat.ltb_spec ns head_end) as [_|?]; [|lia].
  unfold find in H. simpl Nat.leb in H. simpl skipn in H.
  rewrite <- (firstn_skipn ns new_content) in H.
  pose proof (@replace_first_after_insert (lit "</head>") disabled_close nl
                (tl disabled_open) eq_refl disabled_open_skipped
                (firstn ns new_content) (skipn ns new_content) 0 head_end H)
    as Q.
  rewrite length_firstn, Nat.min_l in Q by lia.
  rewrite Nat.sub_0_r in Q.
  change (nl :: tl disabled_open) with disabled_open in Q.
  rewrite Q by lia. do 4 f_equal.
  rewrite skipn_skipn. f_equal.
  change (List.length (lit "</head>")) with 7. lia.
Qed.

(** X16.  When the head has a style sheet and a script after the last
    one, the injector comments out exactly the part of the head from that
    script to the first [</head>]: the comment is opened before the script
    and closed before that same [</head>], and the text before, inside and
    after is kept as it is.  The test [next_script < head_end] of the code
    never fails. *)
Theorem X16_scripts_commented_up_to_head_end
  (f : fs) (filepath content : str) (n head_end ls ns : nat) :
  let new_content :=
    firstn n content ++ lit "<head>" ++ [nl] ++ REDIRECT_BLOCKER
    ++ skipn (n + 6) content in
  f filepath = Some content ->
  contains marker content = false ->
  find (lit "<head>") content 0 = Some n ->
  find (lit "</head>") new_content 0 = Some head_end ->
  rfind (lit "</style>") (firstn head_end new_content) = Some ls ->
  find (lit "<script") (firstn head_end new_content) ls = Some ns ->
  ns < head_end
  /\ process_html_file f filepath
     = (true,
        write f filepath
          (firstn ns new_content ++ disabled_open
           ++ firstn (head_end - ns) (skipn ns new_content)
           ++ disabled_close ++ skipn (head_end + 7) new_content)).
Proof.
  intros new_content C M F H R S.
  destruct (@disable_scripts_shape new_content head_end ls ns H R S)
    as [L E].
  split; [exact L|].
  rewrite (@process_patched f filepath content n head_end C M F H).
  fold new_content. now rewrite E.
Qed.

Lemma X16_scripts_commented_up_to_head_end_witness :
  find (lit "<script")
    (lit "<html><head>" ++ [nl] ++ REDIRECT_BLOCKER
     ++ lit "<style>a{}</style><script src='x.js'></script>") 3081
  = Some 3089
  /\ process_html_file site (lit "index.html")
     = (true,
        write site (lit "index.html")
          (lit "<html><head>" ++ [nl] ++ REDIRECT_BLOCKER
           ++ lit "<style>a{}</style>" ++ disabled_open
           ++ lit "<script src='x.js'></script>" ++ disabled_close
           ++ lit "<body></body></html>")).
Proof.
  split; [vm_compute; reflexivity|].
  refine (proj2 (@X16_scripts_commented_up_to_head_end site
                   (lit "index.html") page 6 3117 3081 3089 _ _ _ _ _ _));
    vm_compute; reflexivity.
Defined.

(** *** The whole run *)

(** The result of one file depends on that file's content only. *)
Lemma skip_local (f g : fs) (p : str) :
  f p = g p ->
  process_html_file f p = (false, f) -> process_html_file g p = (false, g).
Proof.
  unfold process_html_file. intros <-.
  destruct (f p) as [content|]; [|reflexivity].
  destruct (contains marker content); [reflexivity|].
  destruct (str_eqb _ content); [reflexivity|].
  destruct (find _ _ 0); [discriminate|reflexivity].
Qed.

(** Processing one file leaves every other file alone. *)
Lemma process_frame (f : fs) (p q : str) :
  q <> p -> snd (process_html_file f p) q = f q.
Proof.
  intros N. unfold process_html_file.
  destruct (f p) as [content|]; [|reflexivity].
  destruct (contains marker content); [reflexivity|].
  destruct (str_eqb _ content); [reflexivity|].
  destruct (find _ _ 0); [|reflexivity].
  cbn [snd]. unfold write. now rewrite (proj2 (str_eqb_neq q p) N).
Qed.

Lemma process_result (f : fs) (p : str) :
  process_html_file f p
  = (fst (process_html_file f p), snd (process_html_file f p)).
Proof. now destruct (process_html_file f p). Qed.

Lemma skipped_unchanged (f : fs) (p : str) :
  fst (process_html_file f p) = false -> process_html_file f p = (false, f).
Proof.
  unfold process_html_file.
  destruct (f p) as [content|]; [|reflexivity].
  destruct (contains marker content); [reflexivity|].
  destruct (str_eqb _ content); [reflexivity|].
  destruct (find _ _ 0); [discriminate|reflexivity].
Qed.

(** A file that was processed, or that would be skipped, is skipped after
    any further file has been processed. *)
Lemma step_settles (f : fs) (q p : str) :
  p = q \/ process_html_file f p = (false, f) ->
  process_html_file (snd (process_html_file f q)) p
  = (false, snd (process_html_file f q)).
Proof.
  intros H. destruct (str_dec p q) as [->|N]; [apply process_twice|].
  destruct H as [H|H]; [contradiction|].
  apply (@skip_local f (snd (process_html_file f q)) p); [|assumption].
  symmetry. now apply process_frame.
Qed.

Lemma process_files_run (html_files : list str) :
  forall (f : fs) (a b c : nat),
    exists f1 processed skipped,
      process_files f html_files a b c = (f1, processed, skipped, c)
      /\ processed + skipped = a + b + List.length html_files
      /\ (forall q, ~ In q html_files -> f1 q = f q)
      /\ (forall q, In q html_files \/ process_html_file f q = (false, f) ->
            process_html_file f1 q = (false, f1)).
Proof.
  induction html_files as [|p l IH]; intros f a b c.
  - exists f, a, b. cbn [process_files List.length In].
    repeat split; [lia|tauto].
  - cbn [process_files]. rewrite (process_result f p).
    set (f' := snd (process_html_file f p)).
    assert (S : forall q, In q (p :: l) \/ process_html_file f q = (false, f) ->
                In q l \/ process_html_file f' q = (false, f')).
    { intros q [[<-|I]|K].
      - right. apply step_settles. now left.
      - now left.
      - right. apply step_settles. now right. }
    assert (Fr : forall q, ~ In q (p :: l) -> f' q = f q).
    { intros q N. apply process_frame. intros ->. apply N. now left. }
    destruct (fst (process_html_file f p)).
    + destruct (IH f' (Datatypes.S a) b c) as (f1 & x & y & E & T & U & V).
      exists f1, x, y. rewrite E. cbn [List.length].
      repeat split; [lia| |].
      * intros q N. rewrite U; [now apply Fr|]. intros I. apply N. now right.
      * intros q K. apply V. now apply S.
    + destruct (IH f' a (Datatypes.S b) c) as (f1 & x & y & E & T & U & V).
      exists f1, x, y. rewrite E. cbn [List.length].
      repeat split; [lia| |].
      * intros q N. rewrite U; [now apply Fr|]. intros I. apply N. now right.
      * intros q K. apply V. now apply S.
Qed.

Lemma process_files_settled (html_files : list str) (f : fs) :
  (forall q, In q html_files -> process_html_file f q = (false, f)) ->
  forall a b c,
    process_files f html_files a b c
    = (f, a, b + List.length html_files, c).
Proof.
  intros K. induction html_files as [|p l IH]; intros a b c.
  - cbn [process_files List.length]. now rewrite Nat.add_0_r.
  - cbn [process_files]. rewrite (K p (or_introl eq_refl)).
    rewrite IH; [|intros q I; apply K; now right].
    cbn [List.length].
    now replace (b + S (List.length l)) with (S b + List.length l) by lia.
Qed.

(** X15.  A run of [main] over any list of files counts every file as
    processed or skipped and none as an error, leaves the files outside the
    list as they were, and settles the site: a second run over the same
    list processes no file, skips them all and changes nothing, whether or
    not the list names a file twice. *)
Theorem X15_second_run_skips_every_file (f : fs) (html_files : list str) :
  exists f1 processed skipped,
    main f html_files = (f1, processed, skipped, 0)
    /\ processed + skipped = List.length html_files
    /\ (forall q, ~ In q html_files -> f1 q = f q)
    /\ main f1 html_files = (f1, 0, List.length html_files, 0).
Proof.
  unfold main.
  destruct (process_files_run html_files f 0 0 0)
    as (f1 & x & y & E & T & U & V).
  exists f1, x, y. repeat split; try assumption.
  apply (@process_files_settled html_files f1
           (fun q I => V q (or_introl I)) 0 0 0).
Qed.

End InjectorMore.

(** ** The summary of the gdown script *)

Module SummaryFacts.
Import Py Re Env Samples PyFacts Gdown.

Section Scan.
Context {O : SetOrder}.
Variable f : fs.

Lemma total_videos_app (a b : dict (list str)) :
  total_videos (a ++ b) = total_videos a + total_videos b.
Proof. unfold total_videos. now rewrite map_app, list_sum_app. Qed.

(** What the scan counts, file by file. *)
Lemma scan_for_links_sums (html_files : list str) :
  forall all_links,
    NoDup html_files ->
    (forall p, In p html_files -> ~ In p (keys all_links)) ->
    total_videos (scan_for_links f html_files all_links)
    = total_videos all_links
      + list_sum (map (fun p => List.length (ids_of f p)) html_files)
    /\ List.length (scan_for_links f html_files all_links)
       = List.length all_links
         + List.length
             (filter (fun p => Nat.ltb 0 (List.length (ids_of f p)))
                html_files).
Proof.
  induction html_files as [|p rest IH]; intros acc ND Fr.
  - cbn -[total_videos]. split; lia.
  - inversion ND as [|? ? NI ND']; subst.
    assert (Fr' : forall q, In q rest -> ~ In q (keys acc)).
    { intros q I. apply Fr. now right. }
    assert (I : ids_of f p
                = match f p with
                  | Some content => extract_google_drive_file_ids content
                  | None => []
                  end) by reflexivity.
    cbn [scan_for_links map filter]. unfold list_sum. cbn [fold_right].
    rewrite I.
    destruct (f p) as [content|].
    + destruct (extract_google_drive_file_ids content) as [|a ids] eqn:E.
      * change (Nat.ltb 0 (List.length (@nil str))) with false.
        cbn [List.length Nat.add]. now apply IH.
      * rewrite (@ImagesMore.dict_set_fresh _ acc p (a :: ids)
                   (Fr p (or_introl eq_refl))).
        destruct (IH (acc ++ [(p, a :: ids)]) ND') as [T L].
        { intros q J K. unfold keys in K. rewrite map_app in K.
          apply in_app_or in K as [K|[K|[]]].
          - now apply (Fr' q J).
          - cbn in K. subst q. contradiction. }
        rewrite T, L, total_videos_app, length_app.
        change (Nat.ltb 0 (List.length (a :: ids))) with true.
        unfold total_videos at 2. unfold list_sum.
        cbn [map fold_right snd List.length]. split; lia.
    + change (Nat.ltb 0 (List.length (@nil str))) with false.
      cbn [List.length Nat.add]. now apply IH.
Qed.

End Scan.

Section Loop.
Context {O : SetOrder}.
Variable h : Host.

(** One document: no more downloads than ids, and another file that the
    downloader leaves alone is as it was. *)
Lemma process_html_file_effect (p q : str) (w : world) :
  (forall log url out f0,
     out <> q -> outcome_files (downloader h log url out f0) q = f0 q) ->
  (forall j, path_join h (destination_folder h p) (Drive.video_file j) <> q) ->
  fst (process_html_file h p w) <= List.length (ids_of (files w) p)
  /\ files (snd (process_html_file h p w)) q = files w q.
Proof.
  intros Fr NK. unfold process_html_file, ids_of.
  destruct (files w p) as [content|]; [|split; [cbn; lia|reflexivity]].
  destruct (extract_google_drive_file_ids content) as [|a ids];
    [split; [cbn; lia|reflexivity]|].
  destruct (negb (parents3_ok h p)); [split; [cbn; lia|reflexivity]|].
  destruct (@DriveFacts.download_ids_effect h q Fr (destination_folder h p)
              (a :: ids) 1 0 w NK) as (_ & L & F).
  split; [exact L|exact F].
Qed.

Lemma process_all_bounds (html_files : list str) :
  forall (a b : nat) (w : world),
    (forall p, In p html_files ->
       forall log url out f0,
         out <> p -> outcome_files (downloader h log url out f0) p = f0 p) ->
    (forall p q j, In p html_files -> In q html_files ->
       path_join h (destination_folder h p) (Drive.video_file j) <> q) ->
    let r := process_all h html_files a b w in
    fst (fst r)
    <= a + list_sum (map (fun p => List.length (ids_of (files w) p))
                       html_files)
    /\ snd (fst r)
       <= b + List.length
                (filter (fun p => Nat.ltb 0 (List.length (ids_of (files w) p)))
                   html_files)
    /\ (b <= a -> snd (fst r) <= fst (fst r)).
Proof.
  induction html_files as [|p rest IH]; intros a b w Fr NK.
  - cbn. repeat split; lia.
  - cbn [process_all].
    assert (K : forall q, In q rest ->
              ids_of (files (snd (process_html_file h p w))) q
              = ids_of (files w) q).
    { intros q I. unfold ids_of.
      destruct (@process_html_file_effect p q w
                  (Fr q (or_intror I))
                  (fun j => NK p q j (or_introl eq_refl) (or_intror I)))
        as [_ E].
      now rewrite E. }
    destruct (@process_html_file_effect p p w
                (Fr p (or_introl eq_refl))
                (fun j => NK p p j (or_introl eq_refl) (or_introl eq_refl)))
      as [D _].
    destruct (process_html_file h p w) as [d w1]. cbn [fst snd] in D, K.
    assert (Fr' : forall q, In q rest ->
              forall log url out f0,
                out <> q ->
                outcome_files (downloader h log url out f0) q = f0 q).
    { intros q I. apply Fr. now right. }
    assert (NK' : forall x q j, In x rest -> In q rest ->
              path_join h (destination_folder h x) (Drive.video_file j) <> q).
    { intros x q j Ix Iq. apply NK; now right. }
    cbn [map list_sum fold_right filter].
    rewrite <- (map_ext_in _ _ rest
                  (fun q I => f_equal (@List.length str) (K q I))).
    rewrite <- (filter_ext_in _ _ rest
                  (fun q I => f_equal (fun l => Nat.ltb 0 (List.length l))
                                (K q I))).
    destruct (Nat.ltb_spec 0 d) as [P|P].
    + destruct (IH (a + d) (S b) w1 Fr' NK') as (T & C & R).
      unfold list_sum in T.
      destruct (Nat.ltb_spec 0 (List.length (ids_of (files w) p))) as [_|?];
        [|lia].
      cbn [List.length]. repeat split; try lia.
    + destruct (IH a b w1 Fr' NK') as (T & C & R).
      unfold list_sum in T.
      destruct (Nat.ltb 0 (List.length (ids_of (files w) p)));
        cbn [List.length]; repeat split; try lia.
Qed.

End Loop.

(** X17.  The summary of the gdown script is consistent with its scan.
    When the files of the list are pairwise different, the downloader
    leaves every document alone and no destination is one of the
    documents, the loop of [main] never counts more downloaded videos than
    [scan_for_links] found, never more files with videos than the scan
    listed, and never more such files than videos. *)
Theorem X17_gdown_summary_within_scan
  (O : SetOrder) (h : Host) (html_files : list str) (w : world) :
  NoDup html_files ->
  (forall p, In p html_files ->
     forall log url out f0,
       out <> p -> outcome_files (downloader h log url out f0) p = f0 p) ->
  (forall p q j, In p html_files -> In q html_files ->
     path_join h (destination_folder h p) (Drive.video_file j) <> q) ->
  let all_links := scan_for_links (files w) html_files [] in
  let r := process_all h html_files 0 0 w in
  fst (fst r) <= total_videos all_links
  /\ snd (fst r) <= List.length all_links
  /\ snd (fst r) <= fst (fst r).
Proof.
  intros ND Fr NK all_links r.
  destruct (@scan_for_links_sums O (files w) html_files [] ND
              (fun p _ I => I)) as [T L].
  destruct (@process_all_bounds O h html_files 0 0 w Fr NK) as (A & B & C).
  fold r in A, B, C. unfold all_links. rewrite T, L.
  cbn [total_videos map list_sum fold_right List.length].
  repeat split; [exact A|exact B|apply C; lia].
Qed.

Lemma X17_gdown_summary_within_scan_witness :
  let h := host (always 200 "img") store_ok in
  let l := [lit "s/a/b/c/x.html"; lit "s/a/b/d/y.html"] in
  let r := process_all (O := stdlib_order) h l 0 0 (start drive_fs) in
  NoDup l
  /\ total_videos (scan_for_links (O := stdlib_order) drive_fs l []) = 2
  /\ fst (fst r) <= 2
  /\ snd (fst r) <= fst (fst r).
Proof.
  assert (ND : NoDup [lit "s/a/b/c/x.html"; lit "s/a/b/d/y.html"]).
  { constructor; [|constructor; [intros []|constructor]].
    intros [E|[]]. discriminate E. }
  assert (Fr : forall p,
            In p [lit "s/a/b/c/x.html"; lit "s/a/b/d/y.html"] ->
            forall log url out f0,
              out <> p ->
              outcome_files (store_ok log url out f0) p = f0 p).
  { intros p _ log url out f0 NE. unfold store_ok, outcome_files, write.
    destruct (str_eqb p out) eqn:E; [|reflexivity].
    apply str_eqb_eq in E. congruence. }
  assert (NK : forall p q j,
            In p [lit "s/a/b/c/x.html"; lit "s/a/b/d/y.html"] ->
            In q [lit "s/a/b/c/x.html"; lit "s/a/b/d/y.html"] ->
            path_join (host (always 200 "img") store_ok)
              (destination_folder (host (always 200 "img") store_ok) p)
              (Drive.video_file j) <> q).
  { intros p q j [<-|[<-|[]]] [<-|[<-|[]]] H; vm_compute in H;
      discriminate H. }
  destruct (@X17_gdown_summary_within_scan stdlib_order
              (host (always 200 "img") store_ok)
              [lit "s/a/b/c/x.html"; lit "s/a/b/d/y.html"]
              (start drive_fs) ND Fr NK) as (A & _ & C).
  split; [exact ND|]. split; [vm_compute; reflexivity|].
  split; [exact A|exact C].
Defined.

End SummaryFacts.
